(** * Hybrid PoS-to-PoA consensus engine: a shallow embedding

    Embedding of [consensus/hybrid/hybrid.go] (package [hybrid]): the engine
    that routes every consensus operation to a Proof-of-Stake engine below the
    transition block and to a Proof-of-Authority engine from it on, and that
    seeds the transition block's extra-data with the initial signers.

    Conventions of the embedding.
    - Go's [uint64] is a [Z] with the wrap-around written out ([wrap64]).
    - A [consensus.Engine] value is a record of methods acting on an opaque
      environment [Env] (engine internals, database, chain); a nil interface
      value is [None] and calling through it panics.
    - The receiver [h *Hybrid] is split in two: the fields fixed by [New]
      ([Hybrid]) and the three diagnostic fields mutated later ([Diag]), which
      live in the [World] threaded through every method.
    - [log.*] calls append an event to [logs], of which the level and the
      message are kept (the structured fields are computed from values that
      are never written back); every call that goes through a sub-engine
      appends an entry to the ghost trace [calls], the way the tracking mock
      of the test-suite counts calls.
    - The reader-writer lock and data races are outside the model: methods
      run one at a time.  The goroutine of [VerifyHeaders] is a function of
      its own, run against a schedule that says when it sees the cancel
      channel closed. *)

From Stdlib Require Import ZArith String Bool Lia List.
From Stdlib.Strings Require Import Byte.
Import ListNotations.

Open Scope string_scope.
Open Scope list_scope.
Open Scope Z_scope.

(** ** Machine integers *)

Definition two64 : Z := 2 ^ 64.
Definition maxUint64 : Z := two64 - 1.

(** Result of a [uint64] addition or subtraction. *)
Definition wrap64 (z : Z) : Z := z mod two64.

(** [big.Int.Uint64]: the low 64 bits of the magnitude (the documentation
    leaves the result open when the value does not fit). *)
Definition Uint64 (x : Z) : Z := Z.abs x mod two64.

(** [time.Time.Sub]: the difference in nanoseconds, saturated to [int64]. *)
Definition minDuration : Z := - 2 ^ 63.
Definition maxDuration : Z := 2 ^ 63 - 1.
Definition timeSub (t u : Z) : Z := Z.max minDuration (Z.min maxDuration (t - u)).
Definition tenSeconds : Z := 10 * 1000000000.

(** ** Addresses and byte slices *)

Definition AddressLength : nat := 20.

(** [common.Address] is [[20]byte]. *)
Record Address : Type := mkAddress {
  addrBytes : list byte;
  addrLen : length addrBytes = AddressLength
}.

(** [make([]byte, n)] *)
Definition make (n : nat) : list byte := repeat x00 n.

(** [copy(dst[off:], src)]: slicing panics ([None]) when [off] exceeds the
    length; otherwise [min (len dst - off) (len src)] bytes are overwritten. *)
Definition copyAt (dst : list byte) (off : nat) (src : list byte) : option (list byte) :=
  if (off <=? length dst)%nat
  then let n := Nat.min (length dst - off) (length src) in
       Some (firstn off dst ++ firstn n src ++ skipn (off + n) dst)
  else None.

(** Constants from the clique package, as redeclared in
    [prepareTransitionBlock]. *)
Definition extraVanity : nat := 32.
Definition extraSeal : nat := 65.

(** [error]: nil is [None]. *)
Definition error : Type := option string.

Definition isErr (e : error) : bool :=
  match e with Some _ => true | None => false end.

Definition ErrInvalidTransitionBlock : error := Some "invalid PoS to PoA transition block"%string.
Definition ErrMissingEngine : error := Some "missing consensus engine"%string.

(** ** Types owned by the host node *)

Class Host : Type := {
  Chain : Type;        (* consensus.ChainHeaderReader / ChainReader *)
  StateDB : Type;
  Body : Type;
  Receipts : Type;
  Hash : Type;
  HeaderRest : Type;   (* the header fields the hybrid never looks at *)
  SealResults : Type;  (* chan<- *types.Block *)
  StopChan : Type;     (* <-chan struct{} *)
  EngineChans : Type;  (* the channel pair a sub-engine's VerifyHeaders returns *)
  Env : Type           (* everything behind the sub-engines *)
}.

Inductive Era : Type := PoS | PoA.

Inductive Method : Type :=
| MAuthor | MVerifyHeader | MVerifyHeaders | MVerifyUncles | MPrepare
| MFinalize | MFinalizeAndAssemble | MSeal | MSealHash | MCalcDifficulty | MClose.

Inductive Level : Type := LvlDebug | LvlInfo | LvlWarn | LvlError.

Record LogEvent : Type := mkLog { level : Level; message : string }.

(** The three fields of [Hybrid] written after construction. *)
Record Diag : Type := mkDiag {
  transitionLogged : bool;
  lastLoggedEngine : string;
  lastLogTime : Z
}.

Definition zeroDiag : Diag := mkDiag false ""%string 0.

(** [defaultInitialSigners] *)
Definition signer1 : Address :=
  mkAddress [x12;x34;x56;x78;x90;x12;x34;x56;x78;x90;x12;x34;x56;x78;x90;x12;x34;x56;x78;x90] eq_refl.
Definition signer2 : Address :=
  mkAddress [x23;x45;x67;x89;x01;x23;x45;x67;x89;x01;x23;x45;x67;x89;x01;x23;x45;x67;x89;x01] eq_refl.
Definition signer3 : Address :=
  mkAddress [x34;x56;x78;x90;x12;x34;x56;x78;x90;x12;x34;x56;x78;x90;x12;x34;x56;x78;x90;x12] eq_refl.
Definition defaultInitialSigners : list Address := [signer1; signer2; signer3].

Section Model.

Context {host : Host}.

Record Header : Type := mkHeader {
  Number : Z;          (* *big.Int *)
  Extra : list byte;
  headerRest : HeaderRest
}.

Definition setExtra (header : Header) (extra : list byte) : Header :=
  mkHeader (Number header) extra (headerRest header).

Record Block : Type := mkBlock {
  blockHeader : Header;
  blockBody : Body
}.

(** [consensus.Engine].  Methods that receive [*types.Header] in order to
    fill it in ([Prepare], [Finalize], [FinalizeAndAssemble]) give the header
    back; the others only read it.  Both engines act on the one environment,
    so they may share state. *)
Record Engine : Type := mkEngine {
  eAuthor : Header -> Env -> (Address * error) * Env;
  eVerifyHeader : Chain -> Header -> Env -> error * Env;
  eVerifyHeaders : Chain -> list Header -> Env -> EngineChans * Env;
  eVerifyUncles : Chain -> Block -> Env -> error * Env;
  ePrepare : Chain -> Header -> Env -> (Header * error) * Env;
  eFinalize : Chain -> Header -> StateDB -> Body -> Env -> Header * Env;
  eFinalizeAndAssemble :
    Chain -> Header -> StateDB -> Body -> Receipts -> Env -> (Header * option Block * error) * Env;
  eSeal : Chain -> Block -> SealResults -> StopChan -> Env -> error * Env;
  eSealHash : Header -> Env -> Hash * Env;
  eCalcDifficulty : Chain -> Z -> Header -> Env -> Z * Env;
  eClose : Env -> error * Env
}.

(** The fields of [Hybrid] fixed by [New]. *)
Record Hybrid : Type := mkHybrid {
  posEngine : option Engine;
  poaEngine : option Engine;
  transitionBlock : Z;
  initialSigners : list Address
}.

Inductive Subject : Type :=
| OnHeader (header : Header)
| OnHeaders (headers : list Header)
| OnBlock (block : Block)
| OnNothing.

Record Call : Type := mkCall { callee : Era; method : Method; subject : Subject }.

Record World : Type := mkWorld {
  diag : Diag;
  now : Z;               (* what time.Now() reads, in nanoseconds *)
  env : Env;
  logs : list LogEvent;
  calls : list Call
}.

Definition withDiag (w : World) (d : Diag) : World :=
  mkWorld d (now w) (env w) (logs w) (calls w).
Definition withEnv (w : World) (e : Env) : World :=
  mkWorld (diag w) (now w) e (logs w) (calls w).
Definition addLog (w : World) (l : LogEvent) : World :=
  mkWorld (diag w) (now w) (env w) (logs w ++ [l]) (calls w).
Definition addCall (w : World) (c : Call) : World :=
  mkWorld (diag w) (now w) (env w) (logs w) (calls w ++ [c]).

(** ** The monad of methods: world passing with panics *)

Inductive Outcome (A : Type) : Type :=
| Done (a : A) (w : World)
| Panic (why : string).
Arguments Done {A} a w.
Arguments Panic {A} why.

Definition Run (A : Type) : Type := World -> Outcome A.

Definition ret {A : Type} (a : A) : Run A := fun w => Done a w.

Definition bind {A B : Type} (m : Run A) (k : A -> Run B) : Run B :=
  fun w => match m w with
           | Done a w' => k a w'
           | Panic why => Panic why
           end.

Definition logEvent (lvl : Level) (msg : string) : Run unit :=
  fun w => Done tt (addLog w (mkLog lvl msg)).

Definition getDiag : Run Diag := fun w => Done (diag w) w.
Definition putDiag (d : Diag) : Run unit := fun w => Done tt (withDiag w d).
Definition timeNow : Run Z := fun w => Done (now w) w.

Definition when (b : bool) (m : Run unit) : Run unit := if b then m else ret tt.

End Model.

Arguments Done {host A} a w.
Arguments Panic {host A} why.

Declare Scope run_scope.
Delimit Scope run_scope with run.
Notation "'let*' x ':=' m 'in' k" := (bind m (fun x => k))
  (at level 10, x pattern, m at level 100, k at level 200) : run_scope.
Notation "m ';;' k" := (bind m (fun _ => k))
  (at level 100, k at level 200, right associativity) : run_scope.
Open Scope run_scope.

(** ** The methods of [*Hybrid] *)

Section Methods.

Context {host : Host}.
Variable h : Hybrid.

Definition engineOf (e : Era) : option Engine :=
  match e with PoS => posEngine h | PoA => poaEngine h end.

(** A method call through the interface value [engineOf e]. *)
Definition invoke {A : Type} (e : Era) (m : Method) (s : Subject)
    (f : Engine -> Env -> A * Env) : Run A :=
  fun w => match engineOf e with
           | None => Panic "invalid memory address or nil pointer dereference"
           | Some engine =>
               let (a, env') := f engine (env w) in
               Done a (addCall (withEnv w env') (mkCall e m s))
           end.

(** [shouldUsePoA] *)
Definition shouldUsePoA (blockNumber : Z) : Run bool :=
  let usePoA := transitionBlock h <=? blockNumber in
  when ((blockNumber =? wrap64 (transitionBlock h - 1))
        || (blockNumber =? transitionBlock h)
        || (blockNumber =? wrap64 (transitionBlock h + 1)))
       (logEvent LvlDebug "Consensus engine decision at transition boundary") ;;
  ret usePoA.

(** [selectEngine] *)
Definition selectEngine (blockNumber : Z) : Run Era :=
  let* usePoA := shouldUsePoA blockNumber in
  let* d := getDiag in
  when ((blockNumber =? transitionBlock h) && negb (transitionLogged d))
       (putDiag (mkDiag true (lastLoggedEngine d) (lastLogTime d)) ;;
        logEvent LvlInfo "Consensus engine transition occurred" ;;
        logEvent LvlWarn "CONSENSUS TRANSITION: Switched from PoS to PoA consensus") ;;
  let currentEngine := if usePoA then "PoA"%string else "PoS"%string in
  let* t := timeNow in
  let* d := getDiag in
  when (negb (String.eqb (lastLoggedEngine d) currentEngine)
        || (tenSeconds <? timeSub t (lastLogTime d)))
       (putDiag (mkDiag (transitionLogged d) currentEngine t) ;;
        logEvent LvlDebug "Using consensus engine") ;;
  ret (if usePoA then PoA else PoS).

(** [selectEngineFromHeader] *)
Definition selectEngineFromHeader (header : Header) : Run Era :=
  selectEngine (Uint64 (Number header)).

(** [Author] *)
Definition Author (header : Header) : Run (Address * error) :=
  let blockNumber := Uint64 (Number header) in
  let engine := if blockNumber <? transitionBlock h then PoS else PoA in
  let* r := invoke engine MAuthor (OnHeader header) (fun e => eAuthor e header) in
  when (isErr (snd r)) (logEvent LvlError "Failed to get block author") ;;
  ret r.

(** [VerifyHeader] *)
Definition VerifyHeader (chain : Chain) (header : Header) : Run error :=
  let blockNumber := Uint64 (Number header) in
  if blockNumber <? transitionBlock h then
    let* err := invoke PoS MVerifyHeader (OnHeader header)
                       (fun e => eVerifyHeader e chain header) in
    when (isErr err) (logEvent LvlError "PoS header verification failed") ;;
    ret err
  else
    let engine := PoA in
    let* err := invoke engine MVerifyHeader (OnHeader header)
                       (fun e => eVerifyHeader e chain header) in
    when (isErr err) (logEvent LvlError "Header verification failed") ;;
    ret err.

(** [VerifyUncles] *)
Definition VerifyUncles (chain : Chain) (block : Block) : Run error :=
  let blockNumber := Uint64 (Number (blockHeader block)) in
  let engine := if blockNumber <? transitionBlock h then PoS else PoA in
  let* err := invoke engine MVerifyUncles (OnBlock block)
                     (fun e => eVerifyUncles e chain block) in
  when (isErr err) (logEvent LvlError "Uncle verification failed") ;;
  ret err.

(** The loop of [prepareTransitionBlock] that copies signer [i], [i+1], ...
    into [extraData]. *)
Fixpoint copySigners (i : nat) (signers : list Address) (extraData : list byte)
    : Run (list byte) :=
  match signers with
  | [] => ret extraData
  | signer :: more =>
      match copyAt extraData (extraVanity + i * AddressLength) (addrBytes signer) with
      | None => fun _ => Panic "slice bounds out of range"
      | Some extraData' =>
          logEvent LvlDebug "Added initial signer to transition block" ;;
          copySigners (S i) more extraData'
      end
  end.

(** [prepareTransitionBlock].  The header is written through the pointer,
    so the header as the call leaves it is part of the result. *)
Definition prepareTransitionBlock (chain : Chain) (header : Header) : Run (Header * error) :=
  logEvent LvlInfo "Starting transition block preparation" ;;
  let extraData :=
    make (extraVanity + List.length (initialSigners h) * AddressLength + extraSeal) in
  let* extraData := copySigners 0 (initialSigners h) extraData in
  let header := setExtra header extraData in
  logEvent LvlInfo "Successfully prepared PoS to PoA transition block" ;;
  let* r := invoke PoA MPrepare (OnHeader header) (fun e => ePrepare e chain header) in
  let (header, err) := r in
  if isErr err then
    logEvent LvlError "Failed to prepare transition block with PoA engine" ;;
    ret (header, err)
  else
    logEvent LvlInfo "Transition block preparation completed successfully" ;;
    ret (header, None).

(** [Prepare] *)
Definition Prepare (chain : Chain) (header : Header) : Run (Header * error) :=
  let blockNumber := Uint64 (Number header) in
  if blockNumber =? transitionBlock h then
    logEvent LvlInfo "Preparing PoS to PoA transition block" ;;
    logEvent LvlWarn "PREPARING CONSENSUS TRANSITION BLOCK" ;;
    prepareTransitionBlock chain header
  else
    let* engine := selectEngineFromHeader header in
    let* r := invoke engine MPrepare (OnHeader header) (fun e => ePrepare e chain header) in
    when (isErr (snd r)) (logEvent LvlError "Block preparation failed") ;;
    ret r.

(** [Finalize] *)
Definition Finalize (chain : Chain) (header : Header) (state : StateDB) (body : Body)
    : Run Header :=
  let* engine := selectEngineFromHeader header in
  invoke engine MFinalize (OnHeader header) (fun e => eFinalize e chain header state body).

(** [FinalizeAndAssemble] *)
Definition FinalizeAndAssemble (chain : Chain) (header : Header) (state : StateDB)
    (body : Body) (receipts : Receipts) : Run (Header * option Block * error) :=
  let* engine := selectEngineFromHeader header in
  let* r := invoke engine MFinalizeAndAssemble (OnHeader header)
                   (fun e => eFinalizeAndAssemble e chain header state body receipts) in
  when (isErr (snd r)) (logEvent LvlError "Block finalization and assembly failed") ;;
  ret r.

(** [Seal] *)
Definition Seal (chain : Chain) (block : Block) (results : SealResults) (stop : StopChan)
    : Run error :=
  let* engine := selectEngineFromHeader (blockHeader block) in
  logEvent LvlDebug "Sealing block" ;;
  let* err := invoke engine MSeal (OnBlock block) (fun e => eSeal e chain block results stop) in
  when (isErr err) (logEvent LvlError "Block sealing failed") ;;
  ret err.

(** [SealHash] *)
Definition SealHash (header : Header) : Run Hash :=
  let* engine := selectEngineFromHeader header in
  invoke engine MSealHash (OnHeader header) (fun e => eSealHash e header).

(** [CalcDifficulty] *)
Definition CalcDifficulty (chain : Chain) (time : Z) (parent : Header) : Run Z :=
  let nextBlockNumber := wrap64 (Uint64 (Number parent) + 1) in
  let* engine := selectEngine nextBlockNumber in
  invoke engine MCalcDifficulty (OnHeader parent) (fun e => eCalcDifficulty e chain time parent).

(** [Close] *)
Definition Close : Run error :=
  logEvent LvlInfo "Closing hybrid consensus engine" ;;
  let* err1 :=
    match posEngine h with
    | Some _ =>
        let* err1 := invoke PoS MClose OnNothing eClose in
        when (isErr err1) (logEvent LvlError "Failed to close PoS engine") ;;
        ret err1
    | None => ret None
    end in
  let* err2 :=
    match poaEngine h with
    | Some _ =>
        let* err2 := invoke PoA MClose OnNothing eClose in
        when (isErr err2) (logEvent LvlError "Failed to close PoA engine") ;;
        ret err2
    | None => ret None
    end in
  if isErr err1 then ret err1 else ret err2.

End Methods.

(** ** Batched verification

    [VerifyHeaders] hands back a cancel channel and a result channel.  They are
    either the pair a sub-engine returned, or a pair the hybrid made itself;
    in the latter case a goroutine may have been started to fill [results]. *)

Record ErrChan : Type := mkErrChan {
  buffered : list error;
  capacity : nat;
  chanClosed : bool
}.

(** [make(chan error, n)] *)
Definition makeChan (n : nat) : ErrChan := mkErrChan [] n false.

(** [close(c)] *)
Definition closeChan (c : ErrChan) : ErrChan := mkErrChan (buffered c) (capacity c) true.

(** [c <- e] as a case of a [select]: ready only while the buffer has room. *)
Definition trySend (c : ErrChan) (e : error) : option ErrChan :=
  if (List.length (buffered c) <? capacity c)%nat
  then Some (mkErrChan (buffered c ++ [e]) (capacity c) (chanClosed c))
  else None.

(** What the goroutine's two [select]s observe in round [i]: [true] when the
    [<-quit] case is the one taken, which takes the caller having closed
    [quit]. *)
Record Schedule : Type := mkSchedule {
  quitBefore : nat -> bool;
  quitAfter : nat -> bool
}.

(** The caller never cancels. *)
Definition neverQuit : Schedule := mkSchedule (fun _ => false) (fun _ => false).

Section Batches.

Context {host : Host}.
Variable h : Hybrid.

Record OwnChans : Type := mkOwnChans {
  quitClosed : bool;
  results : ErrChan;
  worker : option (list Header)   (* the headers the started goroutine ranges over *)
}.

Inductive Verification : Type :=
| Own (c : OwnChans)
| Forwarded (c : EngineChans).

(** [VerifyHeaders], up to the [go] statement. *)
Definition VerifyHeaders (chain : Chain) (headers : list Header) : Run Verification :=
  match headers with
  | [] =>
      let quit := false in
      let results := makeChan 1 in
      let quit := true in
      let results := closeChan results in
      ret (Own (mkOwnChans quit results None))
  | first :: _ =>
      let firstBlock := Uint64 (Number first) in
      let lastBlock := Uint64 (Number (last headers first)) in
      if lastBlock <? transitionBlock h then
        let* c := invoke h PoS MVerifyHeaders (OnHeaders headers)
                         (fun e => eVerifyHeaders e chain headers) in
        ret (Forwarded c)
      else if transitionBlock h <=? firstBlock then
        let* c := invoke h PoA MVerifyHeaders (OnHeaders headers)
                         (fun e => eVerifyHeaders e chain headers) in
        ret (Forwarded c)
      else
        let quit := false in
        let results := makeChan (List.length headers) in
        ret (Own (mkOwnChans quit results (Some headers)))
  end.

(** The [for] loop of the goroutine, from round [i] on.  With the send case
    not ready and [quit] open the goroutine would block for ever. *)
Fixpoint verifyLoop (chain : Chain) (sched : Schedule) (i : nat) (headers : list Header)
    (results : ErrChan) : Run ErrChan :=
  match headers with
  | [] => ret results
  | header :: more =>
      if quitBefore sched i then ret results
      else
        let* err := VerifyHeader h chain header in
        if quitAfter sched i then ret results
        else match trySend results err with
             | Some results' => verifyLoop chain sched (S i) more results'
             | None => fun _ => Panic "all goroutines are asleep"
             end
  end.

(** The goroutine: the loop, then the deferred [close(results)]. *)
Definition verifyWorker (chain : Chain) (sched : Schedule) (headers : list Header)
    (results : ErrChan) : Run ErrChan :=
  let* results := verifyLoop chain sched 0 headers results in
  ret (closeChan results).

End Batches.

Section Construction.

Context {host : Host}.

(** [New].  The diagnostic fields of the fresh struct hold their zero values. *)
Definition New (posEngine poaEngine : option Engine) (transitionBlock : Z)
    : Run (option Hybrid * error) :=
  match posEngine, poaEngine with
  | None, _ => ret (None, ErrMissingEngine)
  | Some _, None => ret (None, ErrMissingEngine)
  | Some _, Some _ =>
      logEvent LvlInfo "Created hybrid consensus engine" ;;
      logEvent LvlInfo "Hybrid consensus configuration" ;;
      putDiag zeroDiag ;;
      ret (Some (mkHybrid posEngine poaEngine transitionBlock defaultInitialSigners), None)
  end.

End Construction.

(** ** One request type for the operations that carry a single block number *)

Section Requests.

Context {host : Host}.
Variable h : Hybrid.

Inductive Request : Type :=
| ReqAuthor (header : Header)
| ReqVerifyHeader (chain : Chain) (header : Header)
| ReqVerifyUncles (chain : Chain) (block : Block)
| ReqPrepare (chain : Chain) (header : Header)
| ReqFinalize (chain : Chain) (header : Header) (state : StateDB) (body : Body)
| ReqFinalizeAndAssemble (chain : Chain) (header : Header) (state : StateDB)
    (body : Body) (receipts : Receipts)
| ReqSeal (chain : Chain) (block : Block) (results : SealResults) (stop : StopChan)
| ReqSealHash (header : Header)
| ReqCalcDifficulty (chain : Chain) (time : Z) (parent : Header).

(** The block number each operation dispatches on. *)
Definition blockNumberOf (r : Request) : Z :=
  match r with
  | ReqAuthor header | ReqVerifyHeader _ header | ReqPrepare _ header
  | ReqFinalize _ header _ _ | ReqFinalizeAndAssemble _ header _ _ _
  | ReqSealHash header => Uint64 (Number header)
  | ReqVerifyUncles _ block | ReqSeal _ block _ _ => Uint64 (Number (blockHeader block))
  | ReqCalcDifficulty _ _ parent => wrap64 (Uint64 (Number parent) + 1)
  end.

Definition methodOf (r : Request) : Method :=
  match r with
  | ReqAuthor _ => MAuthor
  | ReqVerifyHeader _ _ => MVerifyHeader
  | ReqVerifyUncles _ _ => MVerifyUncles
  | ReqPrepare _ _ => MPrepare
  | ReqFinalize _ _ _ _ => MFinalize
  | ReqFinalizeAndAssemble _ _ _ _ _ => MFinalizeAndAssemble
  | ReqSeal _ _ _ _ => MSeal
  | ReqSealHash _ => MSealHash
  | ReqCalcDifficulty _ _ _ => MCalcDifficulty
  end.

(** Run the operation and drop what it returns. *)
Definition serve (r : Request) : Run unit :=
  match r with
  | ReqAuthor header => Author h header ;; ret tt
  | ReqVerifyHeader chain header => VerifyHeader h chain header ;; ret tt
  | ReqVerifyUncles chain block => VerifyUncles h chain block ;; ret tt
  | ReqPrepare chain header => Prepare h chain header ;; ret tt
  | ReqFinalize chain header state body => Finalize h chain header state body ;; ret tt
  | ReqFinalizeAndAssemble chain header state body receipts =>
      FinalizeAndAssemble h chain header state body receipts ;; ret tt
  | ReqSeal chain block results stop => Seal h chain block results stop ;; ret tt
  | ReqSealHash header => SealHash h header ;; ret tt
  | ReqCalcDifficulty chain time parent => CalcDifficulty h chain time parent ;; ret tt
  end.

(** A history: requests served one after the other. *)
Fixpoint serveAll (history : list Request) : Run unit :=
  match history with
  | [] => ret tt
  | r :: later => serve r ;; serveAll later
  end.

(** Serving [r] from [w] ends normally and makes exactly one sub-engine call,
    to [methodOf r] of engine [e]. *)
Definition delegatesTo (r : Request) (w : World) (e : Era) : Prop :=
  exists s w', serve r w = Done tt w'
               /\ calls w' = calls w ++ [mkCall e (methodOf r) s].

End Requests.

(** ** Vocabulary for the statements *)

Section Observations.

Context {host : Host}.

(** Two worlds that differ at most in the diagnostic fields and the log. *)
Definition quiet (w w' : World) : Prop :=
  env w' = env w /\ calls w' = calls w /\ now w' = now w.

(** A step that ends normally and is [quiet]. *)
Definition silent {A : Type} (m : Run A) (a : A) : Prop :=
  forall w, exists w', m w = Done a w' /\ quiet w w'.

(** The hybrid [New] builds over two engines, with any signer list. *)
Definition hybridOf (pos poa : Engine) (transitionBlock : Z) (signers : list Address)
    : Hybrid :=
  mkHybrid (Some pos) (Some poa) transitionBlock signers.

(** The era a header belongs to. *)
Definition eraOf (h : Hybrid) (header : Header) : Era :=
  if Uint64 (Number header) <? transitionBlock h then PoS else PoA.

(** The extra-data of a checkpoint block over [signers]:
    vanity, the addresses one after the other, seal. *)
Definition checkpointExtra (signers : list Address) : list byte :=
  repeat x00 extraVanity ++ concat (map addrBytes signers) ++ repeat x00 extraSeal.

(** The engine behind each era of [hybridOf pos poa _ _]. *)
Definition pick (pos poa : Engine) (e : Era) : Engine :=
  match e with PoS => pos | PoA => poa end.

(** What a delegated call leaves behind: the result of the engine's method,
    the environment it produced, one more entry in the trace. *)
Definition forwarded {A : Type} (pos poa : Engine) (m : Run A) (w : World) (e : Era)
    (meth : Method) (s : Subject) (f : Engine -> Env -> A * Env) : Prop :=
  exists w', m w = Done (fst (f (pick pos poa e) (env w))) w'
             /\ env w' = snd (f (pick pos poa e) (env w))
             /\ calls w' = calls w ++ [mkCall e meth s].

(** What verifying [headers] one after the other, each with the engine of its
    era, returns and leaves as environment. *)
Fixpoint verdicts (pos poa : Engine) (transitionBlock : Z) (chain : Chain)
    (headers : list Header) (e : Env) : list error * Env :=
  match headers with
  | [] => ([], e)
  | header :: more =>
      let era := if Uint64 (Number header) <? transitionBlock then PoS else PoA in
      let (err, e1) := eVerifyHeader (pick pos poa era) chain header e in
      let (errs, e2) := verdicts pos poa transitionBlock chain more e1 in
      (err :: errs, e2)
  end.

(** Block numbers never decrease along the batch. *)
Fixpoint ascending (headers : list Header) : Prop :=
  match headers with
  | [] => True
  | header :: more =>
      (forall later, In later more -> Uint64 (Number header) <= Uint64 (Number later))
      /\ ascending more
  end.

(** The batch has a header on each side of the transition block. *)
Definition straddles (transitionBlock : Z) (headers : list Header) : Prop :=
  (exists header, In header headers /\ Uint64 (Number header) < transitionBlock)
  /\ (exists header, In header headers /\ transitionBlock <= Uint64 (Number header)).

End Observations.

(** ** Concrete engines and headers used in examples *)

Module Fixtures.

(** A host in which every opaque type is trivial; the environment counts the
    calls that reached a sub-engine. *)
Definition plainHost : Host := {|
  Chain := unit; StateDB := unit; Body := unit; Receipts := unit; Hash := unit;
  HeaderRest := unit; SealResults := unit; StopChan := unit; EngineChans := unit;
  Env := nat
|}.

#[local] Existing Instance plainHost.

Definition zeroAddress : Address := mkAddress (repeat x00 20) eq_refl.

(** The [mockEngine] of the test-suite: every method succeeds and leaves the
    header alone. *)
Definition mockEngine : Engine := {|
  eAuthor := fun _ e => ((zeroAddress, None), S e);
  eVerifyHeader := fun _ _ e => (None, S e);
  eVerifyHeaders := fun _ _ e => (tt, S e);
  eVerifyUncles := fun _ _ e => (None, S e);
  ePrepare := fun _ header e => ((header, None), S e);
  eFinalize := fun _ header _ _ e => (header, S e);
  eFinalizeAndAssemble := fun _ header _ _ _ e => ((header, None, None), S e);
  eSeal := fun _ _ _ _ e => (None, S e);
  eSealHash := fun _ e => (tt, S e);
  eCalcDifficulty := fun _ _ _ e => (1, S e);
  eClose := fun e => (None, S e)
|}.

(** An engine whose [Close] fails. *)
Definition failingCloseEngine : Engine := {|
  eAuthor := eAuthor mockEngine;
  eVerifyHeader := eVerifyHeader mockEngine;
  eVerifyHeaders := eVerifyHeaders mockEngine;
  eVerifyUncles := eVerifyUncles mockEngine;
  ePrepare := ePrepare mockEngine;
  eFinalize := eFinalize mockEngine;
  eFinalizeAndAssemble := eFinalizeAndAssemble mockEngine;
  eSeal := eSeal mockEngine;
  eSealHash := eSealHash mockEngine;
  eCalcDifficulty := eCalcDifficulty mockEngine;
  eClose := fun e => (Some "close failed", S e)
|}.


Definition headerAt (n : Z) : Header := mkHeader n [] tt.

Definition freshWorld : World := mkWorld zeroDiag 0 0%nat [] [].

(** A world whose diagnostics say the transition was logged long ago. *)
Definition laterWorld : World :=
  mkWorld (mkDiag true "PoA" 1000) 5000000000000 7%nat [] [].

End Fixtures.

(** ** Vocabulary for the further properties *)

Section Diagnostics_view.

Context {host : Host}.

(** The name [selectEngine] logs for each engine. *)
Definition eraName (e : Era) : string :=
  match e with PoS => "PoS" | PoA => "PoA" end.

Definition boundaryMsg : string := "Consensus engine decision at transition boundary".
Definition transitionOccurredMsg : string := "Consensus engine transition occurred".
Definition usingEngineMsg : string := "Using consensus engine".

(** How many events of a log carry the message [msg]. *)
Definition countMsg (msg : string) (l : list LogEvent) : nat :=
  List.length (filter (fun e => String.eqb (message e) msg) l).

(** The world a moment later: only the clock has moved. *)
Definition withNow (w : World) (t : Z) : World :=
  mkWorld (diag w) t (env w) (logs w) (calls w).

(** [l[lo:hi]]; out of range the slice expression panics ([None]). *)
Definition slice (l : list byte) (lo hi : nat) : option (list byte) :=
  if ((lo <=? hi) && (hi <=? List.length l))%nat
  then Some (firstn (hi - lo) (skipn lo l))
  else None.

(** The method name the tracking mock of the test-suite records. *)
Definition methodName (m : Method) : string :=
  match m with
  | MAuthor => "Author"
  | MVerifyHeader => "VerifyHeader"
  | MVerifyHeaders => "VerifyHeaders"
  | MVerifyUncles => "VerifyUncles"
  | MPrepare => "Prepare"
  | MFinalize => "Finalize"
  | MFinalizeAndAssemble => "FinalizeAndAssemble"
  | MSeal => "Seal"
  | MSealHash => "SealHash"
  | MCalcDifficulty => "CalcDifficulty"
  | MClose => "Close"
  end.

(** The header [Prepare] hands on: rewritten on the transition block only. *)
Definition handedHeader (h : Hybrid) (header : Header) : Header :=
  if Uint64 (Number header) =? transitionBlock h
  then setExtra header (checkpointExtra (initialSigners h))
  else header.

(** The environment after the one engine call that serving [r] makes. *)
Definition engineStep (h : Hybrid) (engine : Engine) (r : Request) (e : Env) : Env :=
  match r with
  | ReqAuthor header => snd (eAuthor engine header e)
  | ReqVerifyHeader chain header => snd (eVerifyHeader engine chain header e)
  | ReqVerifyUncles chain block => snd (eVerifyUncles engine chain block e)
  | ReqPrepare chain header => snd (ePrepare engine chain (handedHeader h header) e)
  | ReqFinalize chain header state body => snd (eFinalize engine chain header state body e)
  | ReqFinalizeAndAssemble chain header state body receipts =>
      snd (eFinalizeAndAssemble engine chain header state body receipts e)
  | ReqSeal chain block out stop => snd (eSeal engine chain block out stop e)
  | ReqSealHash header => snd (eSealHash engine header e)
  | ReqCalcDifficulty chain time parent => snd (eCalcDifficulty engine chain time parent e)
  end.

(** The requests of a history that fall to engine [e] under method [m]. *)
Definition fallsTo (transitionBlock : Z) (e : Era) (m : string) (r : Request) : bool :=
  String.eqb (methodName (methodOf r)) m
  && (if blockNumberOf r <? transitionBlock
      then match e with PoS => true | PoA => false end
      else match e with PoS => false | PoA => true end).

(** The extra-data [createSimpleTestGenesis] of the integration tests builds
    for its one signer. *)
Definition createSimpleTestGenesis_extraData (coinbase : Address) : option (list byte) :=
  let extraData := make (extraVanity + AddressLength + extraSeal) in
  copyAt extraData extraVanity (addrBytes coinbase).

(** A step that, whenever it ends normally, leaves the world related to the
    one it started from. *)
Definition keeps {A : Type} (R : World -> World -> Prop) (m : Run A) : Prop :=
  forall w, match m w with
            | Done _ w' => R w w'
            | Panic _ => True
            end.

(** Neither the transition flag nor the number of transition events logged
    has changed. *)
Definition sameFlag (w w' : World) : Prop :=
  transitionLogged (diag w') = transitionLogged (diag w)
  /\ countMsg transitionOccurredMsg (logs w') = countMsg transitionOccurredMsg (logs w).

(** The transition flag was not reset, and one more transition event was
    logged exactly if the flag went up. *)
Definition onceOnly (w w' : World) : Prop :=
  (transitionLogged (diag w) = true -> transitionLogged (diag w') = true)
  /\ countMsg transitionOccurredMsg (logs w')
     = (countMsg transitionOccurredMsg (logs w)
        + (if negb (transitionLogged (diag w)) && transitionLogged (diag w')
           then 1 else 0))%nat.

(** The goroutine's loop has verified the first [v] headers of the batch, in
    order and each with the engine of its era, and has queued the first [s]
    of their verdicts behind what the channel held. *)
Definition hasVerified (pos poa : Engine) (transitionBlock : Z) (chain : Chain)
    (headers : list Header) (w : World) (v s : nat) (before after : ErrChan) (w' : World)
    : Prop :=
  buffered after
  = buffered before
    ++ firstn s (fst (verdicts pos poa transitionBlock chain (firstn v headers) (env w)))
  /\ capacity after = capacity before
  /\ env w' = snd (verdicts pos poa transitionBlock chain (firstn v headers) (env w))
  /\ calls w'
     = calls w
       ++ map (fun hd => mkCall (if Uint64 (Number hd) <? transitionBlock then PoS else PoA)
                                MVerifyHeader (OnHeader hd))
              (firstn v headers).

End Diagnostics_view.

(** ** The tracking mock of the test-suite *)

Module Tracking.

(** [trackingMockEngine].  The two Go maps are read and written one key at a
    time, a missing key reading as the zero value: they are functions from
    the key. *)
Record Mock : Type := mkMock {
  name : string;
  methodCalls : string -> nat;
  errors : string -> error
}.

(** [newTrackingMockEngine] *)
Definition newTrackingMockEngine (name : string) : Mock :=
  mkMock name (fun _ => 0%nat) (fun _ => None).

(** [recordCall] *)
Definition recordCall (method : string) (m : Mock) : Mock :=
  mkMock (name m)
         (fun k => if String.eqb k method then S (methodCalls m k) else methodCalls m k)
         (errors m).

(** [getCallCount] *)
Definition getCallCount (method : string) (m : Mock) : nat := methodCalls m method.

(** [setError] *)
Definition setError (method : string) (err : error) (m : Mock) : Mock :=
  mkMock (name m) (methodCalls m)
         (fun k => if String.eqb k method then err else errors m k).

(** [getError] *)
Definition getError (method : string) (m : Mock) : error := errors m method.

(** The two mocks a test builds its hybrid over. *)
Record Mocks : Type := mkMocks { posMock : Mock; poaMock : Mock }.

Definition mockOf (e : Era) (ms : Mocks) : Mock :=
  match e with PoS => posMock ms | PoA => poaMock ms end.

Definition setMock (e : Era) (m : Mock) (ms : Mocks) : Mocks :=
  match e with
  | PoS => mkMocks m (poaMock ms)
  | PoA => mkMocks (posMock ms) m
  end.

(** The channel pair the mock's [VerifyHeaders] returns, as it stands once
    the mock's own goroutine, if any, has run. *)
Record MockChans : Type := mkMockChans { mockQuitClosed : bool; mockResults : ErrChan }.

Definition trackingHost : Host := {|
  Chain := unit; StateDB := unit; Body := unit; Receipts := unit; Hash := unit;
  HeaderRest := unit; SealResults := unit; StopChan := unit;
  EngineChans := MockChans;
  Env := Mocks
|}.

#[local] Existing Instance trackingHost.

(** A method of the mock at slot [e]: record the call, then answer from the
    configured error. *)
Definition tracked {A : Type} (e : Era) (method : string) (answer : Mock -> A)
    (ms : Mocks) : A * Mocks :=
  let m := recordCall method (mockOf e ms) in
  (answer m, setMock e m ms).

(** The methods of [*trackingMockEngine], for the mock at slot [e]. *)
Definition trackingEngine (e : Era) : Engine := {|
  eAuthor := fun _ =>
    tracked e "Author" (fun m =>
      match getError "Author" m with
      | Some err => (Fixtures.zeroAddress, Some err)
      | None => (Fixtures.zeroAddress, None)
      end);
  eVerifyHeader := fun _ _ => tracked e "VerifyHeader" (getError "VerifyHeader");
  eVerifyHeaders := fun _ headers =>
    tracked e "VerifyHeaders" (fun m =>
      let results := makeChan (List.length headers) in
      match getError "VerifyHeaders" m with
      | Some err =>
          mkMockChans true
            (closeChan (mkErrChan (repeat (Some err) (List.length headers))
                                  (capacity results) (chanClosed results)))
      | None => mkMockChans true (closeChan results)
      end);
  eVerifyUncles := fun _ _ => tracked e "VerifyUncles" (getError "VerifyUncles");
  ePrepare := fun _ header =>
    tracked e "Prepare" (fun m => (header, getError "Prepare" m));
  eFinalize := fun _ header _ _ => tracked e "Finalize" (fun _ => header);
  eFinalizeAndAssemble := fun _ header _ body _ =>
    tracked e "FinalizeAndAssemble" (fun m =>
      match getError "FinalizeAndAssemble" m with
      | Some err => (header, None, Some err)
      | None => (header, Some (mkBlock header body), None)
      end);
  eSeal := fun _ _ _ _ => tracked e "Seal" (getError "Seal");
  eSealHash := fun _ => tracked e "SealHash" (fun _ => tt);
  eCalcDifficulty := fun _ _ _ => tracked e "CalcDifficulty" (fun _ => 1);
  eClose := tracked e "Close" (getError "Close")
|}.

(** The hybrid of the tests: [New(posEngine, poaEngine, transitionBlock)] over
    the two tracking mocks. *)
Definition trackedHybrid (transitionBlock : Z) : Hybrid :=
  hybridOf (trackingEngine PoS) (trackingEngine PoA) transitionBlock defaultInitialSigners.

End Tracking.

(** * Properties *)

Section Basics.

Context {host : Host}.

Lemma Uint64_range (x : Z) : 0 <= Uint64 x < two64.
Proof. unfold Uint64. apply Z.mod_pos_bound. reflexivity. Qed.

Lemma wrap64_range (x : Z) : 0 <= wrap64 x < two64.
Proof. unfold wrap64. apply Z.mod_pos_bound. reflexivity. Qed.

Lemma last_In {A : Type} (l : list A) : forall d a, In (last (a :: l) d) (a :: l).
Proof.
  induction l as [| b more IH]; intros d a.
  - left. reflexivity.
  - right. change (last (a :: b :: more) d) with (last (b :: more) d). apply IH.
Qed.

Lemma quiet_refl (w : World) : quiet w w.
Proof. repeat split. Qed.

Lemma quiet_trans (w1 w2 w3 : World) : quiet w1 w2 -> quiet w2 w3 -> quiet w1 w3.
Proof. unfold quiet. intuition congruence. Qed.

Lemma quiet_addLog (w : World) (l : LogEvent) : quiet w (addLog w l).
Proof. repeat split. Qed.

Lemma quiet_withDiag (w : World) (d : Diag) : quiet w (withDiag w d).
Proof. repeat split. Qed.

Lemma silent_ret {A : Type} (a : A) : silent (ret a) a.
Proof. intro w. exists w. split; [reflexivity | apply quiet_refl]. Qed.

Lemma silent_logEvent (lvl : Level) (msg : string) : silent (logEvent lvl msg) tt.
Proof. intro w. eexists. split; [reflexivity | apply quiet_addLog]. Qed.

Lemma silent_putDiag (d : Diag) : silent (putDiag d) tt.
Proof. intro w. eexists. split; [reflexivity | apply quiet_withDiag]. Qed.

Lemma silent_bind {A B : Type} (m : Run A) (k : A -> Run B) (a : A) (b : B) :
  silent m a -> silent (k a) b -> silent (bind m k) b.
Proof.
  intros Hm Hk w. destruct (Hm w) as (w1 & E1 & Q1). destruct (Hk w1) as (w2 & E2 & Q2).
  exists w2. unfold bind. rewrite E1. split; [exact E2 | eapply quiet_trans; eassumption].
Qed.

Lemma silent_when (b : bool) (m : Run unit) : silent m tt -> silent (when b m) tt.
Proof. destruct b; simpl; [trivial | intros _; apply silent_ret]. Qed.

Lemma silent_getDiag_bind {B : Type} (k : Diag -> Run B) (b : B) :
  (forall d, silent (k d) b) -> silent (bind getDiag k) b.
Proof.
  intros Hk w. destruct (Hk (diag w) w) as (w' & E & Q). exists w'. split; assumption.
Qed.

Lemma silent_timeNow_bind {B : Type} (k : Z -> Run B) (b : B) :
  (forall t, silent (k t) b) -> silent (bind timeNow k) b.
Proof.
  intros Hk w. destruct (Hk (now w) w) as (w' & E & Q). exists w'. split; assumption.
Qed.

Variable h : Hybrid.

Lemma shouldUsePoA_silent (n : Z) :
  silent (shouldUsePoA h n) (transitionBlock h <=? n).
Proof.
  unfold shouldUsePoA. eapply silent_bind.
  - apply silent_when, silent_logEvent.
  - apply silent_ret.
Qed.

(** [selectEngine] always returns, touches nothing but the diagnostics, and
    its answer is the comparison of the block number with the transition
    block. *)
Lemma selectEngine_silent (n : Z) :
  silent (selectEngine h n) (if transitionBlock h <=? n then PoA else PoS).
Proof.
  unfold selectEngine. eapply silent_bind; [apply shouldUsePoA_silent |].
  apply silent_getDiag_bind; intro d.
  eapply silent_bind.
  { apply silent_when. eapply silent_bind; [apply silent_putDiag |].
    eapply silent_bind; apply silent_logEvent. }
  apply silent_timeNow_bind; intro t.
  apply silent_getDiag_bind; intro d'.
  eapply silent_bind; [| apply silent_ret].
  apply silent_when. eapply silent_bind; [apply silent_putDiag | apply silent_logEvent].
Qed.

End Basics.

Section Delegation.

Context {host : Host}.
Variables (pos poa : Engine) (H : Z) (signers : list Address).

Let h : Hybrid := hybridOf pos poa H signers.

Lemma invoke_pick {A : Type} (e : Era) (m : Method) (s : Subject)
    (f : Engine -> Env -> A * Env) (w : World) :
  invoke h e m s f w =
  Done (fst (f (pick pos poa e) (env w)))
       (addCall (withEnv w (snd (f (pick pos poa e) (env w)))) (mkCall e m s)).
Proof.
  unfold invoke. destruct e; simpl; destruct (f _ (env w)); reflexivity.
Qed.

Lemma era_by_ltb (n : Z) :
  (if H <=? n then PoA else PoS) = (if n <? H then PoS else PoA).
Proof. rewrite Z.leb_antisym. destruct (n <? H); reflexivity. Qed.

Lemma forwarded_invoke {A : Type} (e : Era) (meth : Method) (s : Subject)
    (f : Engine -> Env -> A * Env) (w : World) :
  forwarded pos poa (invoke h e meth s f) w e meth s f.
Proof. eexists. rewrite invoke_pick. repeat split. Qed.

(** Delegation after [selectEngine]. *)
Lemma forwarded_select {A : Type} (n : Z) (meth : Method) (s : Subject)
    (f : Engine -> Env -> A * Env) (w : World) :
  forwarded pos poa (let* e := selectEngine h n in invoke h e meth s f) w
            (if n <? H then PoS else PoA) meth s f.
Proof.
  destruct (selectEngine_silent h n w) as (w1 & E & (Qe & Qc & _)).
  unfold forwarded, bind. rewrite E. simpl transitionBlock. rewrite era_by_ltb.
  rewrite invoke_pick. rewrite Qe. eexists. split; [reflexivity |].
  simpl. rewrite Qc. split; reflexivity.
Qed.

(** Logging after the call does not change what was forwarded. *)
Lemma forwarded_then_log {A : Type} (m : Run A) (w : World) (e : Era) (meth : Method)
    (s : Subject) (f : Engine -> Env -> A * Env) (b : A -> bool) (lvl : Level) (msg : string) :
  forwarded pos poa m w e meth s f ->
  forwarded pos poa (let* r := m in when (b r) (logEvent lvl msg) ;; ret r) w e meth s f.
Proof.
  intros (w1 & E & He & Hc). unfold forwarded, bind. rewrite E.
  destruct (b _); simpl; eexists; (split; [reflexivity |]); simpl; split; assumption.
Qed.

(** *** The transition block's extra-data *)

Lemma copyAt_fill (p a : list byte) (k : nat) :
  List.length a = AddressLength ->
  copyAt (p ++ repeat x00 (AddressLength + k)) (List.length p) a
  = Some ((p ++ a) ++ repeat x00 k).
Proof.
  intro La. unfold copyAt.
  rewrite length_app, repeat_length.
  replace (List.length p <=? List.length p + (AddressLength + k))%nat with true
    by (symmetry; apply Nat.leb_le; lia).
  replace (List.length p + (AddressLength + k) - List.length p)%nat
    with (AddressLength + k)%nat by lia.
  rewrite La. replace (Nat.min (AddressLength + k) AddressLength) with AddressLength by lia.
  rewrite firstn_app, firstn_all, Nat.sub_diag, firstn_O, app_nil_r.
  rewrite <- La at 1. rewrite firstn_all.
  rewrite skipn_app, skipn_all2 by lia.
  replace (List.length p + AddressLength - List.length p)%nat with AddressLength by lia.
  rewrite repeat_app, skipn_app, repeat_length, skipn_all2 by (rewrite repeat_length; lia).
  rewrite Nat.sub_diag, skipn_O. simpl app at 2.
  rewrite <- app_assoc. reflexivity.
Qed.

(** The loop writes the signers one after the other behind what precedes
    them, and leaves the bytes after them alone. *)
Lemma copySigners_fill (l : list Address) : forall (i : nat) (p : list byte) (k : nat),
  List.length p = (extraVanity + i * AddressLength)%nat ->
  silent (copySigners i l (p ++ repeat x00 (List.length l * AddressLength + k)))
         (p ++ concat (map addrBytes l) ++ repeat x00 k).
Proof.
  induction l as [| a more IH]; intros i p k Lp.
  - simpl. apply silent_ret.
  - cbn [copySigners]. rewrite <- Lp.
    replace (List.length (a :: more) * AddressLength + k)%nat
      with (AddressLength + (List.length more * AddressLength + k))%nat by (simpl; lia).
    rewrite copyAt_fill by apply addrLen.
    eapply silent_bind; [apply silent_logEvent |].
    cbn [map concat]. rewrite <- !app_assoc, !(app_assoc p).
    apply IH. rewrite length_app, addrLen, Lp. unfold AddressLength. lia.
Qed.

Lemma copySigners_checkpoint :
  silent (copySigners 0 signers
            (make (extraVanity + List.length signers * AddressLength + extraSeal)))
         (checkpointExtra signers).
Proof.
  unfold make, checkpointExtra.
  rewrite <- Nat.add_assoc, repeat_app.
  apply copySigners_fill. rewrite repeat_length. reflexivity.
Qed.

Lemma checkpointExtra_length (l : list Address) :
  List.length (checkpointExtra l)
  = (extraVanity + AddressLength * List.length l + extraSeal)%nat.
Proof.
  unfold checkpointExtra. rewrite !length_app, !repeat_length.
  assert (E : List.length (concat (map addrBytes l)) = (AddressLength * List.length l)%nat).
  { induction l as [| a more IH]; [reflexivity |].
    cbn [map concat List.length]. rewrite length_app, addrLen, IH. lia. }
  rewrite E. lia.
Qed.

(** [prepareTransitionBlock] overwrites the extra-data and forwards the
    header to the PoA engine's [Prepare], whose answer it returns. *)
Lemma prepareTransitionBlock_forwarded (chain : Chain) (header : Header) (w : World) :
  let header' := setExtra header (checkpointExtra signers) in
  forwarded pos poa (prepareTransitionBlock h chain header) w
            PoA MPrepare (OnHeader header') (fun e => ePrepare e chain header').
Proof.
  intro header'. unfold forwarded, prepareTransitionBlock, bind, logEvent.
  destruct (copySigners_checkpoint (addLog w (mkLog LvlInfo "Starting transition block preparation")))
    as (w1 & E & (Qe & Qc & _)).
  simpl initialSigners. rewrite E. fold header'.
  cbn [env calls addLog] in Qe, Qc.
  rewrite invoke_pick. cbn [env addLog]. rewrite Qe.
  destruct (ePrepare (pick pos poa PoA) chain header' (env w)) as [[hd' err] env'].
  destruct err; (eexists; split; [reflexivity |]); cbn; rewrite Qc; split; reflexivity.
Qed.

End Delegation.

(** *** Every single-block operation forwards to the engine of its era *)

Section Dispatch.

Context {host : Host}.
Variables (pos poa : Engine) (H : Z) (signers : list Address).

Let h : Hybrid := hybridOf pos poa H signers.

(** Delegation after [selectEngine], with the error logged afterwards. *)
Lemma forwarded_select_then_log {A : Type} (n : Z) (meth : Method) (s : Subject)
    (f : Engine -> Env -> A * Env) (b : A -> bool) (lvl : Level) (msg : string) (w : World) :
  forwarded pos poa
    (let* e := selectEngine h n in
     let* r := invoke h e meth s f in
     when (b r) (logEvent lvl msg) ;; ret r) w
    (if n <? H then PoS else PoA) meth s f.
Proof.
  unfold forwarded, bind, logEvent.
  destruct (selectEngine_silent h n w) as (w1 & E & (Qe & Qc & _)).
  rewrite E. simpl transitionBlock. rewrite era_by_ltb.
  unfold h at 1. rewrite invoke_pick. rewrite Qe.
  destruct (b _); (eexists; split; [reflexivity |]); cbn; rewrite Qc; split; reflexivity.
Qed.

Lemma Author_forwarded (header : Header) (w : World) :
  forwarded pos poa (Author h header) w
            (eraOf h header) MAuthor (OnHeader header) (fun e => eAuthor e header).
Proof.
  unfold Author.
  apply (forwarded_then_log pos poa _ w _ _ _ _ (fun r => isErr (snd r))).
  apply forwarded_invoke.
Qed.

Lemma VerifyHeader_forwarded (chain : Chain) (header : Header) (w : World) :
  forwarded pos poa (VerifyHeader h chain header) w
            (eraOf h header) MVerifyHeader (OnHeader header)
            (fun e => eVerifyHeader e chain header).
Proof.
  unfold VerifyHeader, eraOf.
  destruct (Uint64 (Number header) <? transitionBlock h);
    apply (forwarded_then_log pos poa _ w _ _ _ _ isErr); apply forwarded_invoke.
Qed.

Lemma VerifyUncles_forwarded (chain : Chain) (block : Block) (w : World) :
  forwarded pos poa (VerifyUncles h chain block) w
            (eraOf h (blockHeader block)) MVerifyUncles (OnBlock block)
            (fun e => eVerifyUncles e chain block).
Proof.
  unfold VerifyUncles.
  apply (forwarded_then_log pos poa _ w _ _ _ _ isErr). apply forwarded_invoke.
Qed.

(** Off the transition block [Prepare] takes the ordinary path. *)
Lemma Prepare_forwarded_plain (chain : Chain) (header : Header) (w : World) :
  Uint64 (Number header) <> H ->
  forwarded pos poa (Prepare h chain header) w
            (eraOf h header) MPrepare (OnHeader header) (fun e => ePrepare e chain header).
Proof.
  intro Hne. unfold Prepare. simpl transitionBlock.
  destruct (Z.eqb_spec (Uint64 (Number header)) H) as [E | _]; [contradiction |].
  apply (forwarded_select_then_log (Uint64 (Number header)) MPrepare (OnHeader header)
           (fun e => ePrepare e chain header) (fun r => isErr (snd r))).
Qed.

(** On the transition block [Prepare] goes through [prepareTransitionBlock]. *)
Lemma Prepare_forwarded_transition (chain : Chain) (header : Header) (w : World) :
  Uint64 (Number header) = H ->
  let header' := setExtra header (checkpointExtra signers) in
  forwarded pos poa (Prepare h chain header) w
            PoA MPrepare (OnHeader header') (fun e => ePrepare e chain header').
Proof.
  intros E header'. unfold Prepare. simpl transitionBlock.
  rewrite E, Z.eqb_refl. unfold forwarded, bind, logEvent.
  destruct (prepareTransitionBlock_forwarded pos poa H signers chain header
              (addLog (addLog w (mkLog LvlInfo "Preparing PoS to PoA transition block"))
                      (mkLog LvlWarn "PREPARING CONSENSUS TRANSITION BLOCK")))
    as (w' & E' & He & Hc).
  exists w'. split; [exact E' | split; assumption].
Qed.

Lemma Finalize_forwarded (chain : Chain) (header : Header) (state : StateDB) (body : Body)
    (w : World) :
  forwarded pos poa (Finalize h chain header state body) w
            (eraOf h header) MFinalize (OnHeader header)
            (fun e => eFinalize e chain header state body).
Proof. apply forwarded_select. Qed.

Lemma FinalizeAndAssemble_forwarded (chain : Chain) (header : Header) (state : StateDB)
    (body : Body) (receipts : Receipts) (w : World) :
  forwarded pos poa (FinalizeAndAssemble h chain header state body receipts) w
            (eraOf h header) MFinalizeAndAssemble (OnHeader header)
            (fun e => eFinalizeAndAssemble e chain header state body receipts).
Proof.
  apply (forwarded_select_then_log (Uint64 (Number header)) MFinalizeAndAssemble
           (OnHeader header)
           (fun e => eFinalizeAndAssemble e chain header state body receipts)
           (fun r => isErr (snd r))).
Qed.

Lemma Seal_forwarded (chain : Chain) (block : Block) (results : SealResults)
    (stop : StopChan) (w : World) :
  forwarded pos poa (Seal h chain block results stop) w
            (eraOf h (blockHeader block)) MSeal (OnBlock block)
            (fun e => eSeal e chain block results stop).
Proof.
  unfold Seal, selectEngineFromHeader, forwarded, bind, logEvent, eraOf.
  destruct (selectEngine_silent h (Uint64 (Number (blockHeader block))) w)
    as (w1 & E & (Qe & Qc & _)).
  rewrite E. simpl transitionBlock. rewrite era_by_ltb.
  unfold h at 1. rewrite invoke_pick. cbn [env calls addLog]. rewrite Qe.
  destruct (isErr _); (eexists; split; [reflexivity |]); cbn; rewrite Qc; split; reflexivity.
Qed.

Lemma SealHash_forwarded (header : Header) (w : World) :
  forwarded pos poa (SealHash h header) w
            (eraOf h header) MSealHash (OnHeader header) (fun e => eSealHash e header).
Proof. apply forwarded_select. Qed.

Lemma CalcDifficulty_forwarded (chain : Chain) (time : Z) (parent : Header) (w : World) :
  forwarded pos poa (CalcDifficulty h chain time parent) w
            (if wrap64 (Uint64 (Number parent) + 1) <? H then PoS else PoA)
            MCalcDifficulty (OnHeader parent)
            (fun e => eCalcDifficulty e chain time parent).
Proof. apply forwarded_select. Qed.

Lemma forwarded_drop {A : Type} (m : Run A) (w : World) (e : Era) (meth : Method)
    (s : Subject) (f : Engine -> Env -> A * Env) :
  forwarded pos poa m w e meth s f ->
  exists w', (m ;; ret tt) w = Done tt w' /\ calls w' = calls w ++ [mkCall e meth s].
Proof.
  intros (w' & E & _ & Hc). exists w'. unfold bind. rewrite E. split; [reflexivity | exact Hc].
Qed.

(** The era of the block at number [blockNumberOf r] is the engine served. *)
Lemma serve_delegates (r : Request) (w : World) :
  delegatesTo h r w (if blockNumberOf r <? H then PoS else PoA).
Proof.
  unfold delegatesTo.
  destruct r as [header | chain header | chain block | chain header
                | chain header state body | chain header state body receipts
                | chain block out stop | header | chain time parent];
    cbn [serve blockNumberOf methodOf].
  - eexists. exact (forwarded_drop _ _ _ _ _ _ (Author_forwarded header w)).
  - eexists. exact (forwarded_drop _ _ _ _ _ _ (VerifyHeader_forwarded chain header w)).
  - eexists. exact (forwarded_drop _ _ _ _ _ _ (VerifyUncles_forwarded chain block w)).
  - destruct (Z.eq_dec (Uint64 (Number header)) H) as [E | Hne].
    + rewrite E, Z.ltb_irrefl. eexists.
      exact (forwarded_drop _ _ _ _ _ _ (Prepare_forwarded_transition chain header w E)).
    + eexists.
      exact (forwarded_drop _ _ _ _ _ _ (Prepare_forwarded_plain chain header w Hne)).
  - eexists.
    exact (forwarded_drop _ _ _ _ _ _ (Finalize_forwarded chain header state body w)).
  - eexists.
    exact (forwarded_drop _ _ _ _ _ _
             (FinalizeAndAssemble_forwarded chain header state body receipts w)).
  - eexists.
    exact (forwarded_drop _ _ _ _ _ _ (Seal_forwarded chain block out stop w)).
  - eexists. exact (forwarded_drop _ _ _ _ _ _ (SealHash_forwarded header w)).
  - eexists.
    exact (forwarded_drop _ _ _ _ _ _ (CalcDifficulty_forwarded chain time parent w)).
Qed.

Lemma serveAll_done (history : list Request) : forall w : World,
  exists w', serveAll h history w = Done tt w'.
Proof.
  induction history as [| r later IH]; intro w.
  - exists w. reflexivity.
  - destruct (serve_delegates r w) as (s & w1 & E & _).
    destruct (IH w1) as (w2 & E2).
    exists w2. cbn [serveAll]. unfold bind. rewrite E. exact E2.
Qed.

(** [hybridOf] over the default signers is what [New] returns for two engines
    that are not nil. *)
Lemma New_hybridOf (w : World) :
  exists w', New (Some pos) (Some poa) H w
             = Done (Some (hybridOf pos poa H defaultInitialSigners), None) w'
             /\ diag w' = zeroDiag /\ quiet w w'.
Proof. eexists. split; [reflexivity |]. repeat split. Qed.

Lemma New_missing_engine (engine : option Engine) (w : World) :
  New None engine H w = Done (None, ErrMissingEngine) w
  /\ New engine None H w = Done (None, ErrMissingEngine) w.
Proof. destruct engine; split; reflexivity. Qed.

End Dispatch.

(** *** The goroutine of the split path *)

Section Workers.

Context {host : Host}.
Variables (pos poa : Engine) (H : Z) (signers : list Address).

Let h : Hybrid := hybridOf pos poa H signers.

(** Uncancelled and with room in the buffer, the loop verifies every header
    with the engine of its era and queues the verdicts in order. *)
Lemma verifyLoop_neverQuit (chain : Chain) (headers : list Header) :
  forall (i : nat) (out : ErrChan) (w : World),
    (List.length (buffered out) + List.length headers <= capacity out)%nat ->
    exists w',
      verifyLoop h chain neverQuit i headers out w
      = Done (mkErrChan (buffered out ++ fst (verdicts pos poa H chain headers (env w)))
                        (capacity out) (chanClosed out)) w'
      /\ env w' = snd (verdicts pos poa H chain headers (env w))
      /\ calls w' = calls w ++ map (fun hd => mkCall (eraOf h hd) MVerifyHeader (OnHeader hd))
                                   headers.
Proof.
  induction headers as [| header more IH]; intros i out w Hroom.
  - exists w. cbn. rewrite !app_nil_r. destruct out; repeat split.
  - cbn [verifyLoop neverQuit quitBefore quitAfter].
    destruct (VerifyHeader_forwarded pos poa H signers chain header w) as (w1 & E & He & Hc).
    unfold bind. fold h in E. rewrite E.
    unfold trySend.
    replace (List.length (buffered out) <? capacity out)%nat with true
      by (symmetry; apply Nat.ltb_lt; simpl in Hroom; lia).
    destruct (IH (S i)
                 (mkErrChan (buffered out ++ [fst (eVerifyHeader (pick pos poa (eraOf h header))
                                                     chain header (env w))])
                            (capacity out) (chanClosed out)) w1) as (w2 & E2 & He2 & Hc2).
    { cbn [buffered capacity]. rewrite length_app. simpl in *. lia. }
    exists w2. rewrite E2. cbn [buffered capacity chanClosed verdicts map].
    unfold eraOf in *. simpl transitionBlock in *.
    rewrite He2, Hc2, Hc, He.
    destruct (eVerifyHeader _ chain header (env w)) as [err e1]. cbn [fst snd].
    destruct (verdicts pos poa H chain more e1) as [errs e2]. cbn [fst snd].
    rewrite <- !app_assoc. repeat split.
Qed.

(** Whatever the two [select]s observe, the loop ends without blocking as
    long as the buffer has room for the batch, and queues at most one verdict
    per header. *)
Lemma verifyLoop_any_schedule (chain : Chain) (sched : Schedule) (headers : list Header) :
  forall (i : nat) (out : ErrChan) (w : World),
    (List.length (buffered out) + List.length headers <= capacity out)%nat ->
    exists out' w',
      verifyLoop h chain sched i headers out w = Done out' w'
      /\ (List.length (buffered out') <= List.length (buffered out) + List.length headers)%nat.
Proof.
  induction headers as [| header more IH]; intros i out w Hroom.
  - exists out, w. split; [reflexivity | simpl; lia].
  - cbn [verifyLoop]. destruct (quitBefore sched i).
    { exists out, w. split; [reflexivity | simpl; lia]. }
    destruct (VerifyHeader_forwarded pos poa H signers chain header w) as (w1 & E & _).
    unfold bind. fold h in E. rewrite E. destruct (quitAfter sched i).
    { exists out, w1. split; [reflexivity | simpl; lia]. }
    unfold trySend.
    replace (List.length (buffered out) <? capacity out)%nat with true
      by (symmetry; apply Nat.ltb_lt; simpl in Hroom; lia).
    match goal with
    | |- context [verifyLoop h chain sched (S i) more ?c w1] =>
        destruct (IH (S i) c w1) as (out' & w2 & E2 & Hlen)
    end.
    { cbn [buffered capacity]. rewrite length_app. simpl in *. lia. }
    exists out', w2. split; [exact E2 |].
    cbn [buffered] in Hlen. rewrite length_app in Hlen. simpl in *. lia.
Qed.

(** A batch of one header goes whole to the engine of that header's era. *)
Lemma VerifyHeaders_single (chain : Chain) (header : Header) (w : World) :
  let e := if Uint64 (Number header) <? H then PoS else PoA in
  exists w',
    VerifyHeaders h chain [header] w
    = Done (Forwarded (fst (eVerifyHeaders (pick pos poa e) chain [header] (env w)))) w'
    /\ env w' = snd (eVerifyHeaders (pick pos poa e) chain [header] (env w))
    /\ calls w' = calls w ++ [mkCall e MVerifyHeaders (OnHeaders [header])].
Proof.
  unfold VerifyHeaders. cbv beta iota zeta. cbn [last].
  change (transitionBlock h) with H. rewrite Z.leb_antisym.
  destruct (Uint64 (Number header) <? H); cbn [negb];
    unfold bind; unfold h; rewrite invoke_pick; eexists; repeat split.
Qed.

(** A batch of one era goes whole to that era's engine. *)
Lemma VerifyHeaders_one_era_aux (chain : Chain) (first : Header) (more : list Header)
    (e : Era) (w : World) :
  (forall header, In header (first :: more) -> eraOf h header = e) ->
  let answer := eVerifyHeaders (pick pos poa e) chain (first :: more) (env w) in
  VerifyHeaders h chain (first :: more) w
  = Done (Forwarded (fst answer))
         (mkWorld (diag w) (now w) (snd answer) (logs w)
                  (calls w ++ [mkCall e MVerifyHeaders (OnHeaders (first :: more))])).
Proof.
  intros Hera answer. subst answer.
  pose proof (Hera first (or_introl eq_refl)) as Hfirst.
  pose proof (Hera _ (last_In more first first)) as Hlast.
  unfold eraOf in Hfirst, Hlast. change (transitionBlock h) with H in Hfirst, Hlast.
  unfold VerifyHeaders. cbv beta iota zeta. change (transitionBlock h) with H.
  rewrite (Z.leb_antisym (Uint64 (Number first)) H).
  destruct e.
  - destruct (Uint64 (Number (last (first :: more) first)) <? H); [| discriminate].
    unfold bind, h. rewrite invoke_pick.
    destruct (eVerifyHeaders _ chain (first :: more) (env w)). reflexivity.
  - destruct (Uint64 (Number (last (first :: more) first)) <? H); [discriminate |].
    destruct (Uint64 (Number first) <? H); [discriminate |]. cbn [negb].
    unfold bind, h. rewrite invoke_pick.
    destruct (eVerifyHeaders _ chain (first :: more) (env w)). reflexivity.
Qed.

Lemma verdicts_length (chain : Chain) (headers : list Header) : forall e : Env,
  List.length (fst (verdicts pos poa H chain headers e)) = List.length headers.
Proof.
  induction headers as [| header more IH]; intro e; [reflexivity |].
  cbn [verdicts]. destruct (eVerifyHeader _ chain header e) as [err e1].
  specialize (IH e1). destruct (verdicts pos poa H chain more e1). simpl in *. congruence.
Qed.

End Workers.

Section Batch_order.

Context {host : Host}.

Lemma ascending_first_le (first : Header) (more : list Header) (header : Header) :
  ascending (first :: more) -> In header (first :: more) ->
  Uint64 (Number first) <= Uint64 (Number header).
Proof.
  intros [Hle _] [-> | Hin]; [lia | auto].
Qed.

Lemma ascending_le_last (headers : list Header) : forall (d header : Header),
  ascending headers -> In header headers ->
  Uint64 (Number header) <= Uint64 (Number (last headers d)).
Proof.
  induction headers as [| a more IH]; intros d header Hasc Hin; [contradiction |].
  destruct Hasc as [Hle Hasc]. destruct more as [| b more'].
  - destruct Hin as [-> | []]. simpl. lia.
  - change (last (a :: b :: more') d) with (last (b :: more') d).
    destruct Hin as [-> | Hin].
    + transitivity (Uint64 (Number b)); [apply Hle; left; reflexivity |].
      apply IH; [exact Hasc | left; reflexivity].
    + apply IH; assumption.
Qed.

(** An ascending batch with a header on each side of the transition block
    starts below it and ends at or above it. *)
Lemma ascending_straddle (H : Z) (first : Header) (more : list Header) :
  ascending (first :: more) -> straddles H (first :: more) ->
  Uint64 (Number first) < H /\ H <= Uint64 (Number (last (first :: more) first)).
Proof.
  intros Hasc [(lo & Hlo & Hlt) (hi & Hhi & Hge)]. split.
  - pose proof (ascending_first_le first more lo Hasc Hlo). lia.
  - pose proof (ascending_le_last (first :: more) first hi Hasc Hhi). lia.
Qed.

End Batch_order.

(** * The claims *)

Section Claims.

Context {host : Host}.

Lemma blockNumberOf_range (r : Request) : 0 <= blockNumberOf r <= maxUint64.
Proof.
  unfold maxUint64.
  destruct r; cbn [blockNumberOf];
    first [ pose proof (Uint64_range (Number header)) as R
          | pose proof (Uint64_range (Number (blockHeader block))) as R
          | pose proof (wrap64_range (Uint64 (Number parent) + 1)) as R ]; lia.
Qed.

(** C1 (amended).  Whatever the diagnostic fields, the clock and the history
    recorded in the world, every operation that carries one block number [n]
    ends with exactly one sub-engine call, to the PoS engine when [n < H] and
    to the PoA engine when [n >= H]; [VerifyHeader] in particular returns what
    the engine of the header's era returns, and [VerifyHeaders] on a batch
    whose headers are all of one era (a batch of one header is such a batch)
    goes to that era's engine.  The same holds in the world reached after any
    history of served requests, those at or above [H] included.  With [H = 0]
    that is the PoA engine for every block, with [H] the largest [uint64] it
    is the PoA engine for that block number alone.  The number [n] is the
    header's or block's own number when that is a [uint64], and for
    [CalcDifficulty] one more than the parent's when the parent is below the
    largest [uint64].  Batches with headers of both eras are not covered. *)
Theorem dispatch_boundary (pos poa : Engine) (signers : list Address) (r : Request)
    (w : World) :
  (forall H, delegatesTo (hybridOf pos poa H signers) r w
               (if blockNumberOf r <? H then PoS else PoA))
  /\ (forall H chain header,
        forwarded pos poa (VerifyHeader (hybridOf pos poa H signers) chain header) w
                  (if Uint64 (Number header) <? H then PoS else PoA)
                  MVerifyHeader (OnHeader header) (fun e => eVerifyHeader e chain header))
  /\ (forall H chain header,
        let e := if Uint64 (Number header) <? H then PoS else PoA in
        exists w',
          VerifyHeaders (hybridOf pos poa H signers) chain [header] w
          = Done (Forwarded (fst (eVerifyHeaders (pick pos poa e) chain [header] (env w)))) w'
          /\ calls w' = calls w ++ [mkCall e MVerifyHeaders (OnHeaders [header])])
  /\ (forall H chain first more e,
        (forall header, In header (first :: more) ->
           (if Uint64 (Number header) <? H then PoS else PoA) = e) ->
        VerifyHeaders (hybridOf pos poa H signers) chain (first :: more) w
        = Done (Forwarded (fst (eVerifyHeaders (pick pos poa e) chain (first :: more) (env w))))
               (mkWorld (diag w) (now w)
                        (snd (eVerifyHeaders (pick pos poa e) chain (first :: more) (env w)))
                        (logs w)
                        (calls w ++ [mkCall e MVerifyHeaders (OnHeaders (first :: more))])))
  /\ (forall H history, exists w1,
        serveAll (hybridOf pos poa H signers) history w = Done tt w1
        /\ delegatesTo (hybridOf pos poa H signers) r w1
             (if blockNumberOf r <? H then PoS else PoA))
  /\ delegatesTo (hybridOf pos poa 0 signers) r w PoA
  /\ delegatesTo (hybridOf pos poa maxUint64 signers) r w
       (if blockNumberOf r =? maxUint64 then PoA else PoS)
  /\ (forall x, 0 <= x <= maxUint64 -> Uint64 x = x)
  /\ (forall chain time parent, 0 <= Number parent < maxUint64 ->
        blockNumberOf (ReqCalcDifficulty chain time parent) = Number parent + 1).
Proof.
  pose proof (blockNumberOf_range r) as R.
  split; [| split; [| split; [| split; [| split; [| split; [| split; [| split]]]]]]].
  - intro H. apply serve_delegates.
  - intros H chain header. apply VerifyHeader_forwarded.
  - intros H chain header e.
    destruct (VerifyHeaders_single pos poa H signers chain header w) as (w' & E & _ & Hc).
    exists w'. split; assumption.
  - intros H chain first more e Hera.
    exact (VerifyHeaders_one_era_aux pos poa H signers chain first more e w Hera).
  - intros H history.
    destruct (serveAll_done pos poa H signers history w) as (w1 & E).
    exists w1. split; [exact E | apply serve_delegates].
  - pose proof (serve_delegates pos poa 0 signers r w) as D.
    replace (blockNumberOf r <? 0) with false in D by (symmetry; apply Z.ltb_ge; lia).
    exact D.
  - pose proof (serve_delegates pos poa maxUint64 signers r w) as D.
    destruct (Z.eqb_spec (blockNumberOf r) maxUint64) as [E | Hne].
    + rewrite E, Z.ltb_irrefl in D. exact D.
    + replace (blockNumberOf r <? maxUint64) with true in D
        by (symmetry; apply Z.ltb_lt; lia).
      exact D.
  - intros x Hx. unfold Uint64. rewrite Z.abs_eq by lia.
    apply Z.mod_small. unfold maxUint64 in Hx. lia.
  - intros chain time parent Hp. cbn [blockNumberOf]. unfold Uint64, wrap64.
    rewrite Z.abs_eq by lia. unfold maxUint64 in Hp.
    rewrite (Z.mod_small (Number parent)) by lia. apply Z.mod_small. lia.
Qed.

(** C6.  [selectEngine] always returns, and the engine it returns for block
    number [n] is the same from any two worlds: it is fixed by comparing [n]
    with the transition block, whatever the diagnostic fields, the clock and
    the calls made before. *)
Theorem selectEngine_deterministic (h : Hybrid) (n : Z) (w1 w2 : World) :
  exists e w1' w2',
    selectEngine h n w1 = Done e w1'
    /\ selectEngine h n w2 = Done e w2'
    /\ e = (if transitionBlock h <=? n then PoA else PoS).
Proof.
  destruct (selectEngine_silent h n w1) as (w1' & E1 & _).
  destruct (selectEngine_silent h n w2) as (w2' & E2 & _).
  eexists; exists w1', w2'. repeat split; eassumption.
Qed.

(** C7 (amended).  For a parent numbered below the largest [uint64],
    [CalcDifficulty] selects with the number after the parent's, the number of
    the block being produced: the PoA engine when that number is at least
    [H], the PoS engine otherwise; it returns what that engine's
    [CalcDifficulty] returns on the same arguments, and calls nothing else.
    For a parent whose number is a [uint64] that number is the parent's
    number plus one. *)
Theorem CalcDifficulty_by_next_number (pos poa : Engine) (H : Z) (signers : list Address)
    (chain : Chain) (time : Z) (parent : Header) (w : World) :
  Uint64 (Number parent) < maxUint64 ->
  let n := Uint64 (Number parent) + 1 in
  let e := if H <=? n then PoA else PoS in
  (exists w',
     CalcDifficulty (hybridOf pos poa H signers) chain time parent w
     = Done (fst (eCalcDifficulty (pick pos poa e) chain time parent (env w))) w'
     /\ env w' = snd (eCalcDifficulty (pick pos poa e) chain time parent (env w))
     /\ calls w' = calls w ++ [mkCall e MCalcDifficulty (OnHeader parent)])
  /\ (0 <= Number parent <= maxUint64 -> n = Number parent + 1).
Proof.
  intros Hmax n e. subst e.
  pose proof (Uint64_range (Number parent)) as R.
  assert (Ewrap : wrap64 (Uint64 (Number parent) + 1) = n).
  { unfold wrap64. apply Z.mod_small. unfold maxUint64 in Hmax. subst n. lia. }
  split.
  - rewrite era_by_ltb.
    pose proof (CalcDifficulty_forwarded pos poa H signers chain time parent w) as F.
    rewrite Ewrap in F. exact F.
  - intro Hfit. subst n. f_equal. unfold Uint64. rewrite Z.abs_eq by lia.
    apply Z.mod_small. unfold maxUint64 in Hfit. lia.
Qed.

(** C9.  The number [CalcDifficulty] selects with wraps modulo [2^64]: for a
    parent numbered [2^64 - 1] it is [0], so with any transition block
    [H > 0] the call goes to the PoS engine, although the parent itself is a
    block of the PoA era. *)
Theorem CalcDifficulty_wraps (pos poa : Engine) (H : Z) (signers : list Address)
    (chain : Chain) (time : Z) (parent : Header) (w : World) :
  Uint64 (Number parent) = maxUint64 ->
  0 < H <= maxUint64 ->
  wrap64 (Uint64 (Number parent) + 1) = 0
  /\ eraOf (hybridOf pos poa H signers) parent = PoA
  /\ forwarded pos poa (CalcDifficulty (hybridOf pos poa H signers) chain time parent) w
               PoS MCalcDifficulty (OnHeader parent)
               (fun e => eCalcDifficulty e chain time parent).
Proof.
  intros Emax HH.
  assert (Ewrap : wrap64 (Uint64 (Number parent) + 1) = 0) by (rewrite Emax; reflexivity).
  split; [exact Ewrap | split].
  - unfold eraOf. simpl transitionBlock. rewrite Emax.
    replace (maxUint64 <? H) with false by (symmetry; apply Z.ltb_ge; lia). reflexivity.
  - pose proof (forwarded_select pos poa H signers (wrap64 (Uint64 (Number parent) + 1))
                  MCalcDifficulty (OnHeader parent)
                  (fun e => eCalcDifficulty e chain time parent) w) as F.
    rewrite Ewrap in F.
    replace (0 <? H) with true in F by (symmetry; apply Z.ltb_lt; lia).
    unfold CalcDifficulty. cbv zeta. rewrite Ewrap. exact F.
Qed.

(** C4.  [Close] closes the PoS engine and then the PoA engine, whatever the
    first close returned, and calls nothing else; it returns the PoS engine's
    error when there is one, otherwise what the PoA engine's close returned
    (nil when both succeed). *)
Theorem Close_closes_both (pos poa : Engine) (H : Z) (signers : list Address) (w : World) :
  let r1 := eClose pos (env w) in
  let r2 := eClose poa (snd r1) in
  exists w',
    Close (hybridOf pos poa H signers) w
    = Done (if isErr (fst r1) then fst r1 else fst r2) w'
    /\ env w' = snd r2
    /\ calls w' = calls w ++ [mkCall PoS MClose OnNothing; mkCall PoA MClose OnNothing].
Proof.
  intros r1 r2. subst r1 r2.
  unfold Close, bind, logEvent. cbn [posEngine poaEngine hybridOf].
  rewrite invoke_pick. cbn [pick env addLog].
  destruct (eClose pos (env w)) as [err1 e1]. cbn [fst snd].
  destruct err1 as [msg1 |]; cbn [isErr when ret logEvent];
    rewrite invoke_pick; cbn [pick env addLog addCall withEnv];
    destruct (eClose poa e1) as [err2 e2]; cbn [fst snd];
    destruct err2 as [msg2 |]; cbn [isErr when ret logEvent];
    eexists; (split; [reflexivity |]); cbn; rewrite <- app_assoc; split; reflexivity.
Qed.

(** C8.  On an empty batch [VerifyHeaders] returns at once a cancel channel
    and a result channel that are both closed, no goroutine behind them; the
    world is left as it was, so no sub-engine was called. *)
Theorem VerifyHeaders_empty (h : Hybrid) (chain : Chain) (w : World) :
  VerifyHeaders h chain [] w
  = Done (Own (mkOwnChans true (mkErrChan [] 1 true) None)) w.
Proof. reflexivity. Qed.

(** C2 (amended).  When the first header of the batch is below [H] and the
    last one at or above it, [VerifyHeaders] calls no engine itself and starts
    the goroutine over the whole batch; if the caller never cancels, the
    goroutine queues exactly one verdict per header, in batch order, then
    closes the result channel, and each header was verified by the PoS engine
    when its number is below [H] and by the PoA engine otherwise. *)
Theorem VerifyHeaders_split (pos poa : Engine) (H : Z) (signers : list Address)
    (chain : Chain) (first : Header) (more : list Header) (w : World) :
  Uint64 (Number first) < H ->
  H <= Uint64 (Number (last (first :: more) first)) ->
  let h := hybridOf pos poa H signers in
  let headers := first :: more in
  VerifyHeaders h chain headers w
  = Done (Own (mkOwnChans false (makeChan (List.length headers)) (Some headers))) w
  /\ forall w1, exists out w2,
       verifyWorker h chain neverQuit headers (makeChan (List.length headers)) w1
       = Done out w2
       /\ chanClosed out = true
       /\ List.length (buffered out) = List.length headers
       /\ buffered out = fst (verdicts pos poa H chain headers (env w1))
       /\ env w2 = snd (verdicts pos poa H chain headers (env w1))
       /\ calls w2 = calls w1 ++ map (fun hd => mkCall (eraOf h hd) MVerifyHeader (OnHeader hd))
                                     headers.
Proof.
  intros Hfirst Hlast h headers. split.
  - subst h headers. unfold VerifyHeaders. cbv beta iota zeta.
    change (transitionBlock (hybridOf pos poa H signers)) with H.
    replace (Uint64 (Number (last (first :: more) first)) <? H) with false
      by (symmetry; apply Z.ltb_ge; lia).
    replace (H <=? Uint64 (Number first)) with false
      by (symmetry; apply Z.leb_gt; lia).
    reflexivity.
  - intro w1.
    destruct (verifyLoop_neverQuit pos poa H signers chain headers 0%nat
                (makeChan (List.length headers)) w1) as (w2 & E & He & Hc).
    { simpl. lia. }
    eexists; exists w2. unfold verifyWorker, bind. fold h in E. rewrite E.
    split; [reflexivity |]. cbn [closeChan buffered chanClosed makeChan app].
    split; [reflexivity |]. split; [apply verdicts_length |].
    split; [reflexivity |]. split; assumption.
Qed.


(** C10.  On the transition block [Prepare] replaces the extra-data as a
    whole: whatever bytes the header came with, the header that reaches the
    PoA engine carries 32 zero bytes, the signers' addresses and 65 zero
    bytes and nothing else, with the number and the other fields it had, and
    the outcome of [Prepare] is the same for every extra-data the header
    could have come with. *)
Theorem Prepare_transition_overwrites (pos poa : Engine) (H : Z) (signers : list Address)
    (chain : Chain) (number : Z) (rest : HeaderRest) (old : list byte) (w : World) :
  Uint64 number = H ->
  exists handed,
    Extra handed = repeat x00 32 ++ concat (map addrBytes signers) ++ repeat x00 65
    /\ Number handed = number
    /\ headerRest handed = rest
    /\ forwarded pos poa
         (Prepare (hybridOf pos poa H signers) chain (mkHeader number old rest)) w
         PoA MPrepare (OnHeader handed) (fun e => ePrepare e chain handed)
    /\ forall other,
         Prepare (hybridOf pos poa H signers) chain (mkHeader number other rest) w
         = Prepare (hybridOf pos poa H signers) chain (mkHeader number old rest) w.
Proof.
  intros EH. exists (mkHeader number (checkpointExtra signers) rest).
  split; [reflexivity |]. split; [reflexivity |]. split; [reflexivity |]. split.
  - exact (Prepare_forwarded_transition pos poa H signers chain (mkHeader number old rest)
             w EH).
  - intro other. unfold Prepare. cbn [Number].
    change (transitionBlock (hybridOf pos poa H signers)) with H.
    rewrite EH, Z.eqb_refl. reflexivity.
Qed.

End Claims.

(** * Instances and counterexamples *)

Section Examples.

Import Fixtures.
#[local] Existing Instance plainHost.

(** C1 on the unordered batch 10, 60, 20, all below the transition at block
    100. *)
Lemma dispatch_boundary_witness :
  let batch := [headerAt 10; headerAt 60; headerAt 20] in
  (forall header, In header batch ->
     (if Uint64 (Number header) <? 100 then PoS else PoA) = PoS)
  /\ VerifyHeaders (hybridOf mockEngine mockEngine 100 defaultInitialSigners) tt batch
                   laterWorld
     = Done (Forwarded (fst (eVerifyHeaders (pick mockEngine mockEngine PoS) tt batch
                               (env laterWorld))))
            (mkWorld (diag laterWorld) (now laterWorld)
                     (snd (eVerifyHeaders (pick mockEngine mockEngine PoS) tt batch
                             (env laterWorld)))
                     (logs laterWorld)
                     (calls laterWorld ++ [mkCall PoS MVerifyHeaders (OnHeaders batch)])).
Proof.
  intro batch.
  assert (Hera : forall header, In header batch ->
                   (if Uint64 (Number header) <? 100 then PoS else PoA) = PoS).
  { intros header [<- | [<- | [<- | []]]]; reflexivity. }
  split; [exact Hera |].
  exact (proj1 (proj2 (proj2 (proj2
           (dispatch_boundary mockEngine mockEngine defaultInitialSigners
              (ReqVerifyHeader tt (headerAt 10)) laterWorld))))
           100 tt (headerAt 10) [headerAt 60; headerAt 20] PoS Hera).
Defined.

(** C1 as stated fails for [VerifyHeaders] on the batch 150, 50, 120 with the
    transition at block 100: first and last header are at or above it, so the
    batch goes whole to the PoA engine, the header numbered 50 with it. *)
Lemma VerifyHeaders_mixed_counterexample :
  let batch := [headerAt 150; headerAt 50; headerAt 120] in
  In (headerAt 50) batch
  /\ Uint64 (Number (headerAt 50)) < 100
  /\ exists w',
       VerifyHeaders (hybridOf mockEngine mockEngine 100 defaultInitialSigners) tt batch
                     freshWorld = Done (Forwarded tt) w'
       /\ calls w' = [mkCall PoA MVerifyHeaders (OnHeaders batch)].
Proof.
  intro batch. split; [right; left; reflexivity |]. split; [vm_compute; reflexivity |].
  eexists. split; vm_compute; reflexivity.
Qed.

(** C7 for the parent 99 of the transition block 100. *)
Lemma CalcDifficulty_by_next_number_witness :
  Uint64 (Number (headerAt 99)) < maxUint64
  /\ (let n := Uint64 (Number (headerAt 99)) + 1 in
      let e := if 100 <=? n then PoA else PoS in
      (exists w',
         CalcDifficulty (hybridOf mockEngine mockEngine 100 defaultInitialSigners) tt 0
                        (headerAt 99) freshWorld
         = Done (fst (eCalcDifficulty (pick mockEngine mockEngine e) tt 0 (headerAt 99)
                        (env freshWorld))) w'
         /\ env w' = snd (eCalcDifficulty (pick mockEngine mockEngine e) tt 0 (headerAt 99)
                            (env freshWorld))
         /\ calls w' = calls freshWorld ++ [mkCall e MCalcDifficulty (OnHeader (headerAt 99))])
      /\ (0 <= Number (headerAt 99) <= maxUint64 -> n = Number (headerAt 99) + 1)).
Proof.
  split; [vm_compute; reflexivity |].
  apply (CalcDifficulty_by_next_number mockEngine mockEngine 100 defaultInitialSigners tt 0
           (headerAt 99) freshWorld).
  vm_compute; reflexivity.
Defined.

(** C7 as stated fails for a parent numbered [2^64 - 1] with the transition
    at block 100: the parent's number plus one is at least 100, and the call
    goes to the PoS engine. *)
Lemma CalcDifficulty_next_number_counterexample :
  let parent := headerAt maxUint64 in
  100 <= Uint64 (Number parent) + 1
  /\ exists w',
       CalcDifficulty (hybridOf mockEngine mockEngine 100 defaultInitialSigners) tt 0
                      parent freshWorld = Done 1 w'
       /\ calls w' = [mkCall PoS MCalcDifficulty (OnHeader parent)].
Proof.
  intro parent. split; [vm_compute; discriminate |].
  eexists. split; vm_compute; reflexivity.
Qed.

(** C9 at a parent numbered [2^64 - 1] with the transition at block 100. *)
Lemma CalcDifficulty_wraps_witness :
  Uint64 (Number (headerAt maxUint64)) = maxUint64
  /\ 0 < 100 <= maxUint64
  /\ (wrap64 (Uint64 (Number (headerAt maxUint64)) + 1) = 0
      /\ eraOf (hybridOf mockEngine mockEngine 100 defaultInitialSigners)
               (headerAt maxUint64) = PoA
      /\ forwarded mockEngine mockEngine
           (CalcDifficulty (hybridOf mockEngine mockEngine 100 defaultInitialSigners)
                           tt 0 (headerAt maxUint64))
           laterWorld PoS MCalcDifficulty (OnHeader (headerAt maxUint64))
           (fun e => eCalcDifficulty e tt 0 (headerAt maxUint64))).
Proof.
  split; [reflexivity |]. split; [vm_compute; split; [reflexivity | discriminate] |].
  apply (CalcDifficulty_wraps mockEngine mockEngine 100 defaultInitialSigners tt 0
           (headerAt maxUint64) laterWorld).
  - reflexivity.
  - vm_compute; split; [reflexivity | discriminate].
Defined.

(** C2 on the batch 50, 99, 100, 101 with the transition at block 100. *)
Lemma VerifyHeaders_split_witness :
  Uint64 (Number (headerAt 50)) < 100
  /\ 100 <= Uint64 (Number (last [headerAt 50; headerAt 99; headerAt 100; headerAt 101]
                                 (headerAt 50)))
  /\ (let h := hybridOf mockEngine mockEngine 100 defaultInitialSigners in
      let headers := [headerAt 50; headerAt 99; headerAt 100; headerAt 101] in
      VerifyHeaders h tt headers freshWorld
      = Done (Own (mkOwnChans false (makeChan (List.length headers)) (Some headers)))
             freshWorld
      /\ forall w1, exists out w2,
           verifyWorker h tt neverQuit headers (makeChan (List.length headers)) w1
           = Done out w2
           /\ chanClosed out = true
           /\ List.length (buffered out) = List.length headers
           /\ buffered out = fst (verdicts mockEngine mockEngine 100 tt headers (env w1))
           /\ env w2 = snd (verdicts mockEngine mockEngine 100 tt headers (env w1))
           /\ calls w2 = calls w1 ++ map (fun hd => mkCall (eraOf h hd) MVerifyHeader
                                                           (OnHeader hd)) headers).
Proof.
  split; [vm_compute; reflexivity |]. split; [vm_compute; discriminate |].
  apply (VerifyHeaders_split mockEngine mockEngine 100 defaultInitialSigners tt
           (headerAt 50) [headerAt 99; headerAt 100; headerAt 101] freshWorld).
  - vm_compute; reflexivity.
  - vm_compute; discriminate.
Defined.

(** C2 as stated fails on the batch 150, 50 with the transition at block 100:
    the batch has a header on each side, yet it goes whole to the PoS
    engine's [VerifyHeaders] and the PoA engine is not called. *)
Lemma VerifyHeaders_unordered_counterexample :
  straddles 100 [headerAt 150; headerAt 50]
  /\ exists w',
       VerifyHeaders (hybridOf mockEngine mockEngine 100 defaultInitialSigners) tt
                     [headerAt 150; headerAt 50] freshWorld
       = Done (Forwarded tt) w'
       /\ calls w' = [mkCall PoS MVerifyHeaders (OnHeaders [headerAt 150; headerAt 50])].
Proof.
  split.
  - split.
    + exists (headerAt 50). split; [right; left; reflexivity | vm_compute; reflexivity].
    + exists (headerAt 150). split; [left; reflexivity | vm_compute; discriminate].
  - eexists. split; vm_compute; reflexivity.
Qed.



(** C10 at the transition block 100, for a header that came with four bytes of
    extra-data. *)
Lemma Prepare_transition_overwrites_witness :
  Uint64 100 = 100
  /\ exists handed,
       Extra handed
       = repeat x00 32 ++ concat (map addrBytes defaultInitialSigners) ++ repeat x00 65
       /\ Number handed = 100
       /\ headerRest handed = tt
       /\ forwarded mockEngine mockEngine
            (Prepare (hybridOf mockEngine mockEngine 100 defaultInitialSigners) tt
                     (mkHeader 100 [x01; x02; x03; x04] tt)) freshWorld
            PoA MPrepare (OnHeader handed) (fun e => ePrepare e tt handed)
       /\ forall other,
            Prepare (hybridOf mockEngine mockEngine 100 defaultInitialSigners) tt
                    (mkHeader 100 other tt) freshWorld
            = Prepare (hybridOf mockEngine mockEngine 100 defaultInitialSigners) tt
                      (mkHeader 100 [x01; x02; x03; x04] tt) freshWorld.
Proof.
  split; [reflexivity |].
  apply (Prepare_transition_overwrites mockEngine mockEngine 100 defaultInitialSigners tt
           100 tt [x01; x02; x03; x04] freshWorld).
  reflexivity.
Defined.

(** ** The scenarios of the test-suite, run on the model *)

(** [TestShouldUsePoA] and its edge cases. *)
Example shouldUsePoA_table :
  map (fun n => match shouldUsePoA (hybridOf mockEngine mockEngine 100 defaultInitialSigners)
                                   n freshWorld with
                | Done b _ => Some b
                | Panic _ => None
                end) [0; 50; 99; 100; 101; 1000]
  = [Some false; Some false; Some false; Some true; Some true; Some true].
Proof. reflexivity. Qed.

Example shouldUsePoA_at_max :
  map (fun n => match shouldUsePoA
                        (hybridOf mockEngine mockEngine maxUint64 defaultInitialSigners)
                        n freshWorld with
                | Done b _ => Some b
                | Panic _ => None
                end) [0; 1000000; maxUint64 - 1; maxUint64]
  = [Some false; Some false; Some false; Some true].
Proof. vm_compute. reflexivity. Qed.

(** A header of the PoS era verified on an instance whose diagnostics say the
    transition was logged: the call goes to the PoS engine. *)
Example VerifyHeader_after_transition :
  exists w',
    VerifyHeader (hybridOf mockEngine mockEngine 100 defaultInitialSigners) tt
                 (headerAt 50) laterWorld = Done None w'
    /\ calls w' = [mkCall PoS MVerifyHeader (OnHeader (headerAt 50))].
Proof. eexists. split; reflexivity. Qed.

(** [TestPrepareTransitionBlock]: 157 bytes, the signers at offsets 32, 52
    and 72. *)
Example Prepare_default_signers :
  exists prepared w',
    Prepare (hybridOf mockEngine mockEngine 100 defaultInitialSigners) tt
            (headerAt 100) freshWorld = Done (prepared, None) w'
    /\ List.length (Extra prepared) = 157%nat
    /\ firstn 20 (skipn 32 (Extra prepared)) = addrBytes signer1
    /\ firstn 20 (skipn 52 (Extra prepared)) = addrBytes signer2
    /\ firstn 20 (skipn 72 (Extra prepared)) = addrBytes signer3.
Proof. eexists; eexists. split; [vm_compute; reflexivity |]. repeat split. Qed.

(** The batch 50, 99, 100, 101 across block 100: four verdicts, two calls to
    each engine. *)
Example verifyWorker_four_headers :
  let headers := [headerAt 50; headerAt 99; headerAt 100; headerAt 101] in
  exists out w',
    verifyWorker (hybridOf mockEngine mockEngine 100 defaultInitialSigners) tt neverQuit
                 headers (makeChan 4) freshWorld = Done out w'
    /\ out = mkErrChan [None; None; None; None] 4 true
    /\ map callee (calls w') = [PoS; PoS; PoA; PoA].
Proof. eexists; eexists. split; [vm_compute; reflexivity |]. split; reflexivity. Qed.

(** The same batch cancelled before the third header: two verdicts, and the
    result channel is closed all the same. *)
Example verifyWorker_cancelled :
  let headers := [headerAt 50; headerAt 99; headerAt 100; headerAt 101] in
  let sched := mkSchedule (fun i => (2 <=? i)%nat) (fun _ => false) in
  exists out w',
    verifyWorker (hybridOf mockEngine mockEngine 100 defaultInitialSigners) tt sched
                 headers (makeChan 4) freshWorld = Done out w'
    /\ out = mkErrChan [None; None] 4 true
    /\ map callee (calls w') = [PoS; PoS].
Proof. eexists; eexists. split; [vm_compute; reflexivity |]. split; reflexivity. Qed.

(** [Close] with a PoS engine whose close fails: the error comes back and the
    PoA engine was closed too. *)
Example Close_pos_failure :
  exists w',
    Close (hybridOf failingCloseEngine mockEngine 100 defaultInitialSigners) freshWorld
    = Done (Some "close failed") w'
    /\ calls w' = [mkCall PoS MClose OnNothing; mkCall PoA MClose OnNothing].
Proof. eexists. split; reflexivity. Qed.

End Examples.

(** * Further properties of the engine *)

Section Diagnostics.

Context {host : Host}.

(** [selectEngine] in closed form: the engine, the diagnostic fields and the
    events it leaves. *)
Lemma selectEngine_exact (h : Hybrid) (n : Z) (w : World) :
  let H := transitionBlock h in
  let d := diag w in
  let usePoA := H <=? n in
  let boundary := (n =? wrap64 (H - 1)) || (n =? H) || (n =? wrap64 (H + 1)) in
  let flip := (n =? H) && negb (transitionLogged d) in
  let current := eraName (if usePoA then PoA else PoS) in
  let refresh := negb (String.eqb (lastLoggedEngine d) current)
                 || (tenSeconds <? timeSub (now w) (lastLogTime d)) in
  selectEngine h n w
  = Done (if usePoA then PoA else PoS)
         (mkWorld (mkDiag (transitionLogged d || flip)
                          (if refresh then current else lastLoggedEngine d)
                          (if refresh then now w else lastLogTime d))
                  (now w) (env w)
                  (logs w
                   ++ (if boundary then [mkLog LvlDebug boundaryMsg] else [])
                   ++ (if flip
                       then [mkLog LvlInfo transitionOccurredMsg;
                             mkLog LvlWarn
                               "CONSENSUS TRANSITION: Switched from PoS to PoA consensus"]
                       else [])
                   ++ (if refresh then [mkLog LvlDebug usingEngineMsg] else []))
                  (calls w)).
Proof.
  intros H d usePoA boundary flip current refresh.
  subst d usePoA boundary flip current refresh.
  unfold selectEngine, shouldUsePoA, bind, when, getDiag, putDiag, timeNow, logEvent, ret.
  fold H.
  destruct w as [[logged lastEngine lastTime] t e l c].
  cbn [diag now env logs calls transitionLogged lastLoggedEngine lastLogTime].
  destruct (n =? wrap64 (H - 1)), (n =? H), (n =? wrap64 (H + 1)), logged, (H <=? n);
    cbn [andb negb orb eraName addLog withDiag
         diag now env logs calls transitionLogged lastLoggedEngine lastLogTime];
    match goal with
    | |- context [negb (String.eqb lastEngine ?s) || ?b] =>
        destruct (negb (String.eqb lastEngine s) || b)
    end;
    unfold addLog, withDiag;
    cbn [diag now env logs calls transitionLogged lastLoggedEngine lastLogTime];
    rewrite <- ?app_assoc; cbn [app]; rewrite ?app_nil_r; reflexivity.
Qed.

Lemma countMsg_app (msg : string) (l l' : list LogEvent) :
  countMsg msg (l ++ l') = (countMsg msg l + countMsg msg l')%nat.
Proof. unfold countMsg. rewrite filter_app, length_app. reflexivity. Qed.

Lemma sameFlag_refl (w : World) : sameFlag w w.
Proof. split; reflexivity. Qed.

Lemma sameFlag_trans (w1 w2 w3 : World) : sameFlag w1 w2 -> sameFlag w2 w3 -> sameFlag w1 w3.
Proof. unfold sameFlag. intuition congruence. Qed.

Lemma onceOnly_refl (w : World) : onceOnly w w.
Proof.
  split; [trivial |]. destruct (transitionLogged (diag w)); simpl; lia.
Qed.

Lemma onceOnly_trans (w1 w2 w3 : World) : onceOnly w1 w2 -> onceOnly w2 w3 -> onceOnly w1 w3.
Proof.
  unfold onceOnly. intros [M1 C1] [M2 C2]. split; [auto |].
  rewrite C2, C1.
  destruct (transitionLogged (diag w1)), (transitionLogged (diag w2)),
           (transitionLogged (diag w3)); simpl; try lia;
    try (specialize (M1 eq_refl); discriminate);
    try (specialize (M2 eq_refl); discriminate).
Qed.

Lemma sameFlag_onceOnly (w w' : World) : sameFlag w w' -> onceOnly w w'.
Proof.
  unfold sameFlag, onceOnly. intros [F C]. rewrite F, C. split; [trivial |].
  destruct (transitionLogged (diag w)); simpl; lia.
Qed.

Lemma keeps_ret {A : Type} (R : World -> World -> Prop) (a : A) :
  (forall w, R w w) -> keeps R (ret a).
Proof. intros Hrefl w. apply Hrefl. Qed.

Lemma keeps_bind {A B : Type} (R : World -> World -> Prop) (m : Run A) (k : A -> Run B) :
  (forall w1 w2 w3, R w1 w2 -> R w2 w3 -> R w1 w3) ->
  keeps R m -> (forall a, keeps R (k a)) -> keeps R (bind m k).
Proof.
  intros Htrans Hm Hk w. unfold bind. specialize (Hm w).
  destruct (m w) as [a w1 |]; [| exact I].
  specialize (Hk a w1). destruct (k a w1) as [b w2 |]; [| exact I].
  eapply Htrans; eassumption.
Qed.

Lemma keeps_weaken {A : Type} (R R' : World -> World -> Prop) (m : Run A) :
  (forall w w', R w w' -> R' w w') -> keeps R m -> keeps R' m.
Proof.
  intros Hsub Hm w. specialize (Hm w). destruct (m w); [apply Hsub; exact Hm | exact I].
Qed.

Lemma keeps_logEvent (lvl : Level) (msg : string) :
  String.eqb msg transitionOccurredMsg = false -> keeps sameFlag (logEvent lvl msg).
Proof.
  intros Hne w. cbn. split; [reflexivity |].
  cbn [logs addLog]. rewrite countMsg_app. unfold countMsg at 2. cbn [filter message].
  rewrite Hne. simpl. lia.
Qed.

Lemma keeps_when (b : bool) (m : Run unit) : keeps sameFlag m -> keeps sameFlag (when b m).
Proof. destruct b; [trivial | intros _; apply keeps_ret, sameFlag_refl]. Qed.

Lemma keeps_invoke {A : Type} (h : Hybrid) (e : Era) (meth : Method) (s : Subject)
    (f : Engine -> Env -> A * Env) :
  keeps sameFlag (invoke h e meth s f).
Proof.
  intro w. unfold invoke. destruct (engineOf h e); [| exact I].
  destruct (f _ (env w)). split; reflexivity.
Qed.

Lemma keeps_copySigners (l : list Address) : forall (i : nat) (data : list byte),
  keeps sameFlag (copySigners i l data).
Proof.
  induction l as [| a more IH]; intros i data.
  - apply keeps_ret, sameFlag_refl.
  - cbn [copySigners]. destruct (copyAt data _ _); [| intro w; exact I].
    apply keeps_bind; [apply sameFlag_trans | apply keeps_logEvent; reflexivity |].
    intros _. apply IH.
Qed.

(** [selectEngine] raises the flag and logs the transition together, on the
    transition block and only while the flag is down. *)
Lemma keeps_selectEngine (h : Hybrid) (n : Z) : keeps onceOnly (selectEngine h n).
Proof.
  intro w. rewrite selectEngine_exact. unfold onceOnly.
  cbn [diag logs transitionLogged]. rewrite !countMsg_app.
  destruct (transitionLogged (diag w)); cbn [orb andb negb].
  - split; [reflexivity |].
    rewrite andb_false_r. cbn [countMsg filter List.length].
    repeat match goal with |- context [if ?b then _ else _] => destruct b end;
      cbn; lia.
  - split; [discriminate |]. rewrite andb_true_r.
    destruct (n =? transitionBlock h); cbn [orb andb];
      repeat match goal with |- context [if ?b then _ else _] => destruct b end;
      cbn; lia.
Qed.

(** Off the transition block it touches neither. *)
Lemma keeps_selectEngine_off (h : Hybrid) (n : Z) :
  n <> transitionBlock h -> keeps sameFlag (selectEngine h n).
Proof.
  intros Hne w. rewrite selectEngine_exact. unfold sameFlag.
  cbn [diag logs transitionLogged]. rewrite !countMsg_app.
  replace (n =? transitionBlock h) with false by (symmetry; apply Z.eqb_neq; exact Hne).
  cbn [andb]. rewrite orb_false_r. split; [reflexivity |].
  repeat match goal with |- context [if ?b then _ else _] => destruct b end; cbn; lia.
Qed.

End Diagnostics.

Section Diagnostics_of_methods.

Context {host : Host}.

Ltac keeps_sameFlag :=
  repeat first
    [ apply keeps_ret, sameFlag_refl
    | apply keeps_logEvent; reflexivity
    | apply keeps_invoke
    | apply keeps_copySigners
    | apply keeps_when
    | apply keeps_bind; [apply sameFlag_trans | | intros ?]
    | match goal with |- keeps _ (if ?b then _ else _) => destruct b end
    | match goal with |- keeps _ (let (_, _) := ?r in _) => destruct r end ].

Ltac keeps_after_select :=
  apply keeps_bind; [apply onceOnly_trans | apply keeps_selectEngine | intros ?];
  apply (keeps_weaken sameFlag onceOnly); [apply sameFlag_onceOnly |]; keeps_sameFlag.

Variable h : Hybrid.

Lemma keeps_Author (header : Header) : keeps sameFlag (Author h header).
Proof. unfold Author. keeps_sameFlag. Qed.

Lemma keeps_VerifyHeader (chain : Chain) (header : Header) :
  keeps sameFlag (VerifyHeader h chain header).
Proof. unfold VerifyHeader. keeps_sameFlag. Qed.

Lemma keeps_VerifyUncles (chain : Chain) (block : Block) :
  keeps sameFlag (VerifyUncles h chain block).
Proof. unfold VerifyUncles. keeps_sameFlag. Qed.

Lemma keeps_prepareTransitionBlock (chain : Chain) (header : Header) :
  keeps sameFlag (prepareTransitionBlock h chain header).
Proof. unfold prepareTransitionBlock. keeps_sameFlag. Qed.

Lemma keeps_Prepare (chain : Chain) (header : Header) :
  keeps sameFlag (Prepare h chain header).
Proof.
  unfold Prepare.
  destruct (Z.eqb_spec (Uint64 (Number header)) (transitionBlock h)) as [E | Hne].
  - apply keeps_bind; [apply sameFlag_trans | apply keeps_logEvent; reflexivity | intros _].
    apply keeps_bind; [apply sameFlag_trans | apply keeps_logEvent; reflexivity | intros _].
    apply keeps_prepareTransitionBlock.
  - apply keeps_bind; [apply sameFlag_trans | | intros e].
    + apply keeps_selectEngine_off. exact Hne.
    + keeps_sameFlag.
Qed.

Lemma keeps_serve (r : Request) : keeps onceOnly (serve h r).
Proof.
  destruct r as [header | chain header | chain block | chain header
                | chain header state body | chain header state body receipts
                | chain block out stop | header | chain time parent];
    cbn [serve];
    (apply keeps_bind;
     [apply onceOnly_trans | | intros _; apply keeps_ret, onceOnly_refl]).
  - apply (keeps_weaken sameFlag onceOnly); [apply sameFlag_onceOnly | apply keeps_Author].
  - apply (keeps_weaken sameFlag onceOnly);
      [apply sameFlag_onceOnly | apply keeps_VerifyHeader].
  - apply (keeps_weaken sameFlag onceOnly);
      [apply sameFlag_onceOnly | apply keeps_VerifyUncles].
  - apply (keeps_weaken sameFlag onceOnly); [apply sameFlag_onceOnly | apply keeps_Prepare].
  - unfold Finalize, selectEngineFromHeader. keeps_after_select.
  - unfold FinalizeAndAssemble, selectEngineFromHeader. keeps_after_select.
  - unfold Seal, selectEngineFromHeader. keeps_after_select.
  - unfold SealHash, selectEngineFromHeader. keeps_after_select.
  - unfold CalcDifficulty. keeps_after_select.
Qed.

Lemma keeps_serveAll (history : list Request) : keeps onceOnly (serveAll h history).
Proof.
  induction history as [| r later IH]; cbn [serveAll].
  - apply keeps_ret, onceOnly_refl.
  - apply keeps_bind; [apply onceOnly_trans | apply keeps_serve | intros _; exact IH].
Qed.

(** What one call of [selectEngine] leaves in the diagnostic fields. *)
Lemma selectEngine_post (n : Z) (w : World) :
  exists w',
    selectEngine h n w = Done (if transitionBlock h <=? n then PoA else PoS) w'
    /\ lastLoggedEngine (diag w')
       = eraName (if transitionBlock h <=? n then PoA else PoS)
    /\ transitionLogged (diag w')
       = transitionLogged (diag w) || (n =? transitionBlock h)
    /\ (lastLogTime (diag w') = lastLogTime (diag w) \/ lastLogTime (diag w') = now w)
    /\ now w' = now w /\ env w' = env w /\ calls w' = calls w.
Proof.
  eexists. split; [apply selectEngine_exact |].
  cbn [diag now env calls lastLoggedEngine transitionLogged lastLogTime].
  split; [| split; [| split; [| repeat split]]].
  - destruct (String.eqb_spec (lastLoggedEngine (diag w))
                (eraName (if transitionBlock h <=? n then PoA else PoS))) as [E | Hne];
      cbn [negb orb]; [| reflexivity].
    destruct (tenSeconds <? _); [reflexivity | exact E].
  - destruct (transitionLogged (diag w)), (n =? transitionBlock h); reflexivity.
  - destruct (negb _ || _); [right | left]; reflexivity.
Qed.

(** With the engine already on record, the last entry no older than ten
    seconds and the transition, if this is its block, already logged,
    [selectEngine] writes nothing but the boundary event. *)
Lemma selectEngine_quiet (n : Z) (w : World) :
  lastLoggedEngine (diag w) = eraName (if transitionBlock h <=? n then PoA else PoS) ->
  timeSub (now w) (lastLogTime (diag w)) <= tenSeconds ->
  (n = transitionBlock h -> transitionLogged (diag w) = true) ->
  selectEngine h n w
  = Done (if transitionBlock h <=? n then PoA else PoS)
         (mkWorld (diag w) (now w) (env w)
                  (logs w ++ (if (n =? wrap64 (transitionBlock h - 1))
                                 || (n =? transitionBlock h)
                                 || (n =? wrap64 (transitionBlock h + 1))
                              then [mkLog LvlDebug boundaryMsg] else []))
                  (calls w)).
Proof.
  intros Hname Htime Hflag. rewrite selectEngine_exact. rewrite Hname, String.eqb_refl.
  replace (tenSeconds <? timeSub (now w) (lastLogTime (diag w))) with false
    by (symmetry; apply Z.ltb_ge; exact Htime).
  cbn [negb orb].
  assert (Hflip : (n =? transitionBlock h) && negb (transitionLogged (diag w)) = false).
  { destruct (Z.eqb_spec n (transitionBlock h)) as [E | _]; [| reflexivity].
    rewrite (Hflag E). reflexivity. }
  rewrite Hflip, orb_false_r, !app_nil_r. rewrite <- Hname.
  destruct (diag w); reflexivity.
Qed.

End Diagnostics_of_methods.

Section Further_diagnostics.

Context {host : Host}.

(** X1.  [Author], [VerifyHeader] and [VerifyUncles] return the answer of the
    engine of the block's era as it is, log one Error event when that answer
    carries an error and nothing otherwise, add the one call to the trace, and
    leave the diagnostic fields and the clock alone. *)
Theorem direct_dispatch_effect (pos poa : Engine) (H : Z) (signers : list Address)
    (chain : Chain) (header : Header) (block : Block) (w : World) :
  let h := hybridOf pos poa H signers in
  let after (e : Era) (m : Method) (s : Subject) (e' : Env) (failed : bool) (msg : string) :=
    mkWorld (diag w) (now w) e'
            (logs w ++ (if failed then [mkLog LvlError msg] else []))
            (calls w ++ [mkCall e m s]) in
  (let e := eraOf h header in
   let answer := eAuthor (pick pos poa e) header (env w) in
   Author h header w
   = Done (fst answer)
          (after e MAuthor (OnHeader header) (snd answer) (isErr (snd (fst answer)))
                 "Failed to get block author"))
  /\ (let e := eraOf h header in
      let answer := eVerifyHeader (pick pos poa e) chain header (env w) in
      VerifyHeader h chain header w
      = Done (fst answer)
             (after e MVerifyHeader (OnHeader header) (snd answer) (isErr (fst answer))
                    (match e with
                     | PoS => "PoS header verification failed"
                     | PoA => "Header verification failed"
                     end)))
  /\ (let e := eraOf h (blockHeader block) in
      let answer := eVerifyUncles (pick pos poa e) chain block (env w) in
      VerifyUncles h chain block w
      = Done (fst answer)
             (after e MVerifyUncles (OnBlock block) (snd answer) (isErr (fst answer))
                    "Uncle verification failed")).
Proof.
  intros h after. subst after. split; [| split]; cbv zeta.
  - unfold Author, eraOf, bind. change (transitionBlock h) with H.
    unfold h. rewrite invoke_pick.
    destruct (eAuthor _ header (env w)) as [[a err] e']. cbn [fst snd].
    destruct err; cbn; rewrite ?app_nil_r; reflexivity.
  - unfold VerifyHeader, eraOf, bind. change (transitionBlock h) with H.
    destruct (Uint64 (Number header) <? H); unfold h; rewrite invoke_pick;
      destruct (eVerifyHeader _ chain header (env w)) as [err e']; cbn [fst snd];
      destruct err; cbn; rewrite ?app_nil_r; reflexivity.
  - unfold VerifyUncles, eraOf, bind. change (transitionBlock h) with H.
    unfold h. rewrite invoke_pick.
    destruct (eVerifyUncles _ chain block (env w)) as [err e']. cbn [fst snd].
    destruct err; cbn; rewrite ?app_nil_r; reflexivity.
Qed.

(** X2.  After any call of [selectEngine] the engine on record in the
    diagnostics is the one just selected, the transition flag is up exactly
    if it was up before or this was the transition block, the recorded time
    is the old one or the current clock, and clock, environment and call
    trace are as before. *)
Theorem selectEngine_records_selection (h : Hybrid) (n : Z) (w : World) :
  exists e w',
    selectEngine h n w = Done e w'
    /\ lastLoggedEngine (diag w') = eraName e
    /\ transitionLogged (diag w')
       = transitionLogged (diag w) || (n =? transitionBlock h)
    /\ (lastLogTime (diag w') = lastLogTime (diag w) \/ lastLogTime (diag w') = now w)
    /\ now w' = now w /\ env w' = env w /\ calls w' = calls w.
Proof.
  destruct (selectEngine_post h n w) as (w' & E & P).
  eexists; exists w'. split; [exact E | exact P].
Qed.

(** X3.  Rate limit.  After a selection for block [n1], a selection for a
    block [n2] of the same era made no later than ten seconds after the time
    then on record changes no diagnostic field and logs neither a "Using
    consensus engine" nor a transition event (unless [n2] is the transition
    block and [n1] was not). *)
Theorem selectEngine_rate_limited (h : Hybrid) (n1 n2 : Z) (w : World) (t2 : Z) :
  (transitionBlock h <=? n2) = (transitionBlock h <=? n1) ->
  (n2 = transitionBlock h -> n1 = transitionBlock h) ->
  exists e w1,
    selectEngine h n1 w = Done e w1
    /\ (timeSub t2 (lastLogTime (diag w1)) <= tenSeconds ->
        exists w2,
          selectEngine h n2 (withNow w1 t2) = Done e w2
          /\ diag w2 = diag w1
          /\ countMsg usingEngineMsg (logs w2) = countMsg usingEngineMsg (logs w1)
          /\ countMsg transitionOccurredMsg (logs w2)
             = countMsg transitionOccurredMsg (logs w1)).
Proof.
  intros Hera Hblock.
  destruct (selectEngine_post h n1 w) as (w1 & E1 & Hname & Hflag & _).
  eexists; exists w1. split; [exact E1 |]. intro Htime.
  eexists. split.
  - rewrite <- Hera. apply selectEngine_quiet.
    + cbn [withNow diag]. rewrite Hera. exact Hname.
    + exact Htime.
    + intro E2. cbn [withNow diag]. rewrite Hflag, (Hblock E2), Z.eqb_refl.
      apply orb_true_r.
  - cbn [diag logs withNow]. split; [reflexivity |].
    rewrite !countMsg_app.
    destruct (_ || _ || _); cbn; split; lia.
Qed.

(** X4.  Over any history of requests the transition flag is never reset,
    and the "Consensus engine transition occurred" event is logged once more
    exactly if the flag went up during the history: at most once, and never
    again once the flag is up. *)
Theorem transition_logged_once (pos poa : Engine) (H : Z) (signers : list Address)
    (history : list Request) (w : World) :
  exists w',
    serveAll (hybridOf pos poa H signers) history w = Done tt w'
    /\ transitionLogged (diag w) && negb (transitionLogged (diag w')) = false
    /\ countMsg transitionOccurredMsg (logs w')
       = (countMsg transitionOccurredMsg (logs w)
          + (if negb (transitionLogged (diag w)) && transitionLogged (diag w')
             then 1 else 0))%nat.
Proof.
  destruct (serveAll_done pos poa H signers history w) as (w' & E).
  pose proof (keeps_serveAll (hybridOf pos poa H signers) history w) as K.
  rewrite E in K. destruct K as [M C].
  exists w'. split; [exact E |]. split; [| exact C].
  destruct (transitionLogged (diag w)); [| reflexivity].
  rewrite (M eq_refl). reflexivity.
Qed.

(** X5.  [Prepare] never raises the transition flag and never logs the
    transition event, on the transition block no more than on any other. *)
Theorem Prepare_leaves_transition_flag (pos poa : Engine) (H : Z) (signers : list Address)
    (chain : Chain) (header : Header) (w : World) :
  exists r w',
    Prepare (hybridOf pos poa H signers) chain header w = Done r w'
    /\ transitionLogged (diag w') = transitionLogged (diag w)
    /\ countMsg transitionOccurredMsg (logs w')
       = countMsg transitionOccurredMsg (logs w).
Proof.
  pose proof (keeps_Prepare (hybridOf pos poa H signers) chain header w) as K.
  destruct (Z.eq_dec (Uint64 (Number header)) H) as [E | Hne].
  - destruct (Prepare_forwarded_transition pos poa H signers chain header w E)
      as (w' & E' & _).
    rewrite E' in K. eexists; exists w'. split; [exact E' | exact K].
  - destruct (Prepare_forwarded_plain pos poa H signers chain header w Hne)
      as (w' & E' & _).
    rewrite E' in K. eexists; exists w'. split; [exact E' | exact K].
Qed.

End Further_diagnostics.

Section Further_layout.

Context {host : Host}.

Lemma concat_addrBytes_length (l : list Address) :
  List.length (concat (map addrBytes l)) = (List.length l * AddressLength)%nat.
Proof.
  induction l as [| a more IH]; [reflexivity |].
  cbn [map concat List.length]. rewrite length_app, addrLen, IH. lia.
Qed.

Lemma slice_middle (p a q : list byte) :
  slice (p ++ a ++ q) (List.length p) (List.length p + List.length a) = Some a.
Proof.
  unfold slice.
  replace ((List.length p <=? List.length p + List.length a)
           && (List.length p + List.length a <=? List.length (p ++ a ++ q)))%nat
    with true.
  - rewrite skipn_app, skipn_all, Nat.sub_diag, skipn_O. cbn [app].
    replace (List.length p + List.length a - List.length p)%nat with (List.length a) by lia.
    rewrite firstn_app, firstn_all, Nat.sub_diag, firstn_O, app_nil_r. reflexivity.
  - symmetry. apply andb_true_iff. split; apply Nat.leb_le; [lia |].
    rewrite !length_app. lia.
Qed.

(** Signer [i] sits at offset [32 + 20 * i] of the checkpoint extra-data. *)
Lemma checkpointExtra_slice (signers : list Address) (i : nat) (signer : Address) :
  nth_error signers i = Some signer ->
  slice (checkpointExtra signers) (extraVanity + i * AddressLength)
        (extraVanity + i * AddressLength + AddressLength)
  = Some (addrBytes signer).
Proof.
  intro Hnth. destruct (nth_error_split signers i Hnth) as (l1 & l2 & -> & <-).
  unfold checkpointExtra. rewrite map_app. cbn [map]. rewrite concat_app. cbn [concat].
  rewrite <- !app_assoc.
  rewrite (app_assoc (repeat x00 extraVanity) (concat (map addrBytes l1))).
  pose proof (slice_middle (repeat x00 extraVanity ++ concat (map addrBytes l1))
                (addrBytes signer)
                (concat (map addrBytes l2) ++ repeat x00 extraSeal)) as S.
  rewrite length_app, repeat_length, concat_addrBytes_length, addrLen in S.
  exact S.
Qed.

Lemma invoke_some {A : Type} (h : Hybrid) (e : Era) (engine : Engine) (m : Method)
    (s : Subject) (f : Engine -> Env -> A * Env) (w : World) :
  engineOf h e = Some engine ->
  invoke h e m s f w
  = Done (fst (f engine (env w)))
         (addCall (withEnv w (snd (f engine (env w)))) (mkCall e m s)).
Proof.
  intro E. unfold invoke. rewrite E. destruct (f engine (env w)). reflexivity.
Qed.

Lemma last_default {A : Type} (l : list A) : forall d d' a,
  last (a :: l) d = last (a :: l) d'.
Proof.
  induction l as [| b more IH]; intros d d' a; [reflexivity |].
  change (last (b :: more) d = last (b :: more) d'). apply IH.
Qed.

(** X6.  [New] refuses with [ErrMissingEngine], leaving the world as it was,
    exactly when one of the engines is nil.  Otherwise it succeeds for every
    transition block, [0] included: the hybrid holds the two engines given,
    that transition block and the three default signers, its diagnostic
    fields are at their zero values, two Info events were logged and nothing
    else changed; and the first selection of the transition block on that
    fresh hybrid raises the transition flag and logs the transition event. *)
Theorem New_outcome (posE poaE : option Engine) (tb : Z) (w : World) :
  match New posE poaE tb w with
  | Done (Some h, None) w1 =>
      posE <> None /\ poaE <> None
      /\ posEngine h = posE /\ poaEngine h = poaE
      /\ transitionBlock h = tb
      /\ initialSigners h = defaultInitialSigners
      /\ List.length (initialSigners h) = 3%nat
      /\ diag w1 = zeroDiag /\ env w1 = env w /\ calls w1 = calls w /\ now w1 = now w
      /\ map level (logs w1) = map level (logs w) ++ [LvlInfo; LvlInfo]
      /\ exists w2,
           selectEngine h tb w1 = Done PoA w2
           /\ transitionLogged (diag w2) = true
           /\ countMsg transitionOccurredMsg (logs w2)
              = S (countMsg transitionOccurredMsg (logs w1))
  | Done (None, err) w1 =>
      err = ErrMissingEngine /\ w1 = w /\ (posE = None \/ poaE = None)
  | _ => False
  end.
Proof.
  destruct posE as [pos |], poaE as [poa |]; cbn.
  - repeat (split; [try discriminate; try reflexivity |]).
    + rewrite !map_app. rewrite <- app_assoc. reflexivity.
    + eexists. split; [rewrite selectEngine_exact; cbn [transitionBlock];
                       rewrite Z.leb_refl; reflexivity |].
      cbn [diag logs transitionLogged withDiag addLog zeroDiag lastLoggedEngine
           lastLogTime now].
      rewrite Z.eqb_refl. split; [reflexivity |].
      rewrite !countMsg_app. cbn [andb negb orb].
      destruct (tb =? wrap64 (tb - 1)); cbn [orb];
        match goal with
        | |- context [if ?b then [mkLog LvlDebug usingEngineMsg] else []] => destruct b
        end; unfold countMsg; rewrite !filter_app, !length_app; cbn; lia.
  - repeat split. right. reflexivity.
  - repeat split. left. reflexivity.
  - repeat split. left. reflexivity.
Qed.

(** X7.  [Close] never panics, nil engines included: it closes the engines
    that are there, the PoS engine first, and returns the first error among
    what they answered. *)
Theorem Close_any_hybrid (h : Hybrid) (w : World) :
  let r1 := match posEngine h with
            | Some engine => eClose engine (env w)
            | None => (None, env w)
            end in
  let r2 := match poaEngine h with
            | Some engine => eClose engine (snd r1)
            | None => (None, snd r1)
            end in
  exists w',
    Close h w = Done (if isErr (fst r1) then fst r1 else fst r2) w'
    /\ env w' = snd r2
    /\ calls w' = calls w
                  ++ match posEngine h with
                     | Some _ => [mkCall PoS MClose OnNothing]
                     | None => []
                     end
                  ++ match poaEngine h with
                     | Some _ => [mkCall PoA MClose OnNothing]
                     | None => []
                     end
    /\ diag w' = diag w.
Proof.
  cbv zeta. unfold Close, bind, logEvent.
  destruct (posEngine h) as [pos |] eqn:Epos, (poaEngine h) as [poa |] eqn:Epoa.
  - rewrite (invoke_some h PoS pos) by exact Epos. cbn [env addLog].
    destruct (eClose pos (env w)) as [[m1 |] e1]; cbn [fst snd isErr when logEvent ret];
      rewrite (invoke_some h PoA poa) by exact Epoa; cbn [env addLog addCall withEnv];
      destruct (eClose poa e1) as [[m2 |] e2]; cbn [fst snd isErr when logEvent ret];
      eexists; (split; [reflexivity |]); cbn; rewrite <- ?app_assoc; repeat split.
  - rewrite (invoke_some h PoS pos) by exact Epos. cbn [env addLog].
    destruct (eClose pos (env w)) as [[m1 |] e1]; cbn [fst snd isErr when logEvent ret];
      eexists; (split; [reflexivity |]); cbn; repeat split.
  - cbn [ret]. rewrite (invoke_some h PoA poa) by exact Epoa. cbn [env addLog fst snd isErr].
    destruct (eClose poa (env w)) as [[m2 |] e2]; cbn [fst snd isErr when logEvent ret];
      eexists; (split; [reflexivity |]); cbn; repeat split.
  - eexists. split; [reflexivity |]. cbn. rewrite app_nil_r. repeat split.
Qed.

(** X8.  On the transition block the header that reaches the PoA engine's
    [Prepare] carries signer [i] of the list in bytes
    [32 + 20 * i, 32 + 20 * i + 20) of its extra-data, for every index of the
    list: the slices the test reads back are in range and are the signers. *)
Theorem Prepare_signer_slices (pos poa : Engine) (H : Z) (signers : list Address)
    (chain : Chain) (header : Header) (w : World) (i : nat) (signer : Address) :
  Uint64 (Number header) = H ->
  nth_error signers i = Some signer ->
  exists handed,
    forwarded pos poa (Prepare (hybridOf pos poa H signers) chain header) w
              PoA MPrepare (OnHeader handed) (fun e => ePrepare e chain handed)
    /\ slice (Extra handed) (extraVanity + i * AddressLength)
             (extraVanity + i * AddressLength + AddressLength)
       = Some (addrBytes signer).
Proof.
  intros EH Hnth. exists (setExtra header (checkpointExtra signers)). split.
  - exact (Prepare_forwarded_transition pos poa H signers chain header w EH).
  - cbn [Extra setExtra]. apply checkpointExtra_slice. exact Hnth.
Qed.

(** X13.  The extra-data [createSimpleTestGenesis] builds for its signer is
    the checkpoint layout [prepareTransitionBlock] writes for a list of that
    one signer: 32 zero bytes, the address, 65 zero bytes. *)
Theorem createSimpleTestGenesis_layout (coinbase : Address) :
  createSimpleTestGenesis_extraData coinbase = Some (checkpointExtra [coinbase])
  /\ List.length (checkpointExtra [coinbase]) = 117%nat.
Proof.
  split; [| rewrite checkpointExtra_length; reflexivity].
  unfold createSimpleTestGenesis_extraData, make, checkpointExtra.
  rewrite <- Nat.add_assoc, repeat_app.
  pose proof (copyAt_fill (repeat x00 extraVanity) (addrBytes coinbase) extraSeal
                (addrLen coinbase)) as C.
  rewrite repeat_length in C. rewrite C.
  cbn [map concat]. rewrite app_nil_r, <- app_assoc. reflexivity.
Qed.

End Further_layout.

Section Further_batches.

Context {host : Host}.
Variables (pos poa : Engine) (H : Z) (signers : list Address).

Let h : Hybrid := hybridOf pos poa H signers.

(** Whatever the schedule, the loop verifies a front part of the batch, in
    order and each header by the engine of its era, and queues the verdicts
    of those headers, the last one excepted when the cancellation was seen
    after its verification. *)
Lemma verifyLoop_prefix (chain : Chain) (sched : Schedule) (headers : list Header) :
  forall (i : nat) (out : ErrChan) (w : World),
    (List.length (buffered out) + List.length headers <= capacity out)%nat ->
    exists (k j : nat) (w' : World),
      (k <= List.length headers)%nat /\ (j <= k <= j + 1)%nat
      /\ verifyLoop h chain sched i headers out w
         = Done (mkErrChan
                   (buffered out
                    ++ firstn j (fst (verdicts pos poa H chain (firstn k headers) (env w))))
                   (capacity out) (chanClosed out)) w'
      /\ env w' = snd (verdicts pos poa H chain (firstn k headers) (env w))
      /\ calls w' = calls w ++ map (fun hd => mkCall (eraOf h hd) MVerifyHeader (OnHeader hd))
                                   (firstn k headers).
Proof.
  induction headers as [| header more IH]; intros i out w Hroom.
  - exists 0%nat, 0%nat, w. cbn. rewrite !app_nil_r. destruct out.
    repeat split; lia.
  - cbn [verifyLoop]. destruct (quitBefore sched i).
    { exists 0%nat, 0%nat, w. cbn. rewrite !app_nil_r. destruct out.
      repeat split; lia. }
    destruct (VerifyHeader_forwarded pos poa H signers chain header w) as (w1 & E & He & Hc).
    unfold bind. fold h in E. rewrite E.
    unfold eraOf in He, Hc, E. change (transitionBlock h) with H in He, Hc, E.
    destruct (quitAfter sched i).
    { exists 1%nat, 0%nat, w1. cbn [firstn verdicts map List.length].
      destruct (eVerifyHeader _ chain header (env w)) as [err e1]. cbn [fst snd] in *.
      rewrite app_nil_r. destruct out. cbn [buffered capacity chanClosed].
      unfold eraOf. change (transitionBlock h) with H.
      repeat split; try lia; assumption. }
    unfold trySend.
    replace (List.length (buffered out) <? capacity out)%nat with true
      by (symmetry; apply Nat.ltb_lt; simpl in Hroom; lia).
    match goal with
    | |- context [verifyLoop h chain sched (S i) more ?c w1] =>
        destruct (IH (S i) c w1) as (k & j & w2 & Hk & Hj & E2 & He2 & Hc2)
    end.
    { cbn [buffered capacity]. rewrite length_app. simpl in *. lia. }
    exists (S k), (S j), w2. rewrite E2.
    cbn [firstn verdicts map List.length buffered capacity chanClosed].
    rewrite He2, Hc2, Hc, He.
    destruct (eVerifyHeader _ chain header (env w)) as [err e1]. cbn [fst snd].
    destruct (verdicts pos poa H chain (firstn k more) e1) as [errs e2]. cbn [fst snd firstn].
    unfold eraOf. change (transitionBlock h) with H.
    rewrite <- !app_assoc. cbn [app].
    repeat split; lia.
Qed.

(** Where the loop stops, by what the schedule shows: with no cancellation
    seen in the first [k] rounds, it stops after [k] headers when the batch
    ends there or round [k] sees the cancellation before verifying, and after
    verifying header [k] without queuing its verdict when round [k] sees the
    cancellation only then. *)
Lemma verifyLoop_cases (chain : Chain) (sched : Schedule) (headers : list Header) :
  forall (i0 : nat) (out : ErrChan) (w : World) (k : nat),
    (List.length (buffered out) + List.length headers <= capacity out)%nat ->
    (k <= List.length headers)%nat ->
    (forall i, (i < k)%nat ->
       quitBefore sched (i0 + i) = false /\ quitAfter sched (i0 + i) = false) ->
    (k = List.length headers \/ quitBefore sched (i0 + k) = true ->
     exists after w',
       verifyLoop h chain sched i0 headers out w = Done after w'
       /\ chanClosed after = chanClosed out
       /\ hasVerified pos poa H chain headers w k k out after w')
    /\ ((k < List.length headers)%nat ->
        quitBefore sched (i0 + k) = false -> quitAfter sched (i0 + k) = true ->
        exists after w',
          verifyLoop h chain sched i0 headers out w = Done after w'
          /\ chanClosed after = chanClosed out
          /\ hasVerified pos poa H chain headers w (S k) k out after w').
Proof.
  induction headers as [| header more IH]; intros i0 out w k Hroom Hk Hclear.
  - assert (k = 0)%nat by (simpl in Hk; lia). subst k. split.
    + intros _. exists out, w. split; [reflexivity |]. split; [reflexivity |].
      unfold hasVerified. cbn. rewrite !app_nil_r. repeat split.
    + intro Hlt. simpl in Hlt. lia.
  - destruct k as [| k'].
    + rewrite Nat.add_0_r. split.
      * intros [Hlen | Hqb]; [discriminate |].
        cbn [verifyLoop]. rewrite Hqb. exists out, w.
        split; [reflexivity |]. split; [reflexivity |].
        unfold hasVerified. cbn. rewrite !app_nil_r. repeat split.
      * intros _ Hqb Hqa. cbn [verifyLoop]. rewrite Hqb.
        destruct (VerifyHeader_forwarded pos poa H signers chain header w)
          as (w1 & E & He & Hc).
        unfold bind. fold h in E. rewrite E, Hqa. exists out, w1.
        split; [reflexivity |]. split; [reflexivity |].
        unfold hasVerified, eraOf in *. change (transitionBlock h) with H in *.
        cbn [firstn verdicts map].
        destruct (eVerifyHeader _ chain header (env w)) as [err e1]. cbn [fst snd] in *.
        rewrite app_nil_r. repeat split; assumption.
    + destruct (Hclear 0%nat ltac:(lia)) as [Hqb0 Hqa0]. rewrite Nat.add_0_r in Hqb0, Hqa0.
      destruct (VerifyHeader_forwarded pos poa H signers chain header w)
        as (w1 & E & He & Hc).
      fold h in E. unfold eraOf in E, He, Hc. change (transitionBlock h) with H in E, He, Hc.
      set (out1 := mkErrChan
                     (buffered out
                      ++ [fst (eVerifyHeader
                                 (pick pos poa (if Uint64 (Number header) <? H
                                                then PoS else PoA))
                                 chain header (env w))])
                     (capacity out) (chanClosed out)).
      assert (Estep : forall after w',
                verifyLoop h chain sched (S i0) more out1 w1 = Done after w' ->
                verifyLoop h chain sched i0 (header :: more) out w = Done after w').
      { intros after w' E'. cbn [verifyLoop]. rewrite Hqb0. unfold bind. rewrite E, Hqa0.
        unfold trySend.
        replace (List.length (buffered out) <? capacity out)%nat with true
          by (symmetry; apply Nat.ltb_lt; simpl in Hroom; lia).
        exact E'. }
      assert (Hlift : forall v s after w',
                hasVerified pos poa H chain more w1 v s out1 after w' ->
                hasVerified pos poa H chain (header :: more) w (S v) (S s) out after w').
      { intros v s after w' (Hb & Hcap & Henv & Hcalls). unfold hasVerified.
        cbn [firstn verdicts map]. subst out1. cbn [buffered capacity] in Hb, Hcap.
        rewrite He in Henv, Hb. rewrite Hc in Hcalls.
        destruct (eVerifyHeader _ chain header (env w)) as [err e1]. cbn [fst snd] in *.
        destruct (verdicts pos poa H chain (firstn v more) e1) as [errs e2].
        cbn [fst snd firstn] in *.
        rewrite <- !app_assoc in Hb, Hcalls. cbn [app] in Hb, Hcalls.
        repeat split; assumption. }
      destruct (IH (S i0) out1 w1 k') as [IHa IHb].
      { subst out1. cbn [buffered capacity]. rewrite length_app. simpl in *. lia. }
      { simpl in Hk. lia. }
      { intros i Hi. replace (S i0 + i)%nat with (i0 + S i)%nat by lia.
        apply Hclear. lia. }
      replace (i0 + S k')%nat with (S i0 + k')%nat by lia. split.
      * intro Hstop.
        destruct IHa as (after & w' & E' & Hclosed & Hv).
        { destruct Hstop as [Hlen | Hqb]; [left; simpl in Hlen; lia | right; exact Hqb]. }
        exists after, w'. split; [apply Estep; exact E' |].
        split; [exact Hclosed | apply Hlift; exact Hv].
      * intros Hlt Hqb Hqa.
        destruct (IHb ltac:(simpl in Hlt; lia) Hqb Hqa) as (after & w' & E' & Hclosed & Hv).
        exists after, w'. split; [apply Estep; exact E' |].
        split; [exact Hclosed | apply Hlift; exact Hv].
Qed.

(** Every schedule shows a first round at which the loop stops. *)
Lemma first_stop (sched : Schedule) (n : nat) :
  exists k, (k <= n)%nat
    /\ (forall i, (i < k)%nat -> quitBefore sched i = false /\ quitAfter sched i = false)
    /\ (k = n
        \/ ((k < n)%nat
            /\ (quitBefore sched k = true
                \/ (quitBefore sched k = false /\ quitAfter sched k = true)))).
Proof.
  induction n as [| m IH].
  - exists 0%nat. split; [lia |]. split; [intros i Hi; lia | left; reflexivity].
  - destruct IH as (k & Hk & Hclear & [-> | (Hlt & Hstop)]).
    + destruct (quitBefore sched m) eqn:Hqb.
      { exists m. split; [lia |]. split; [exact Hclear |]. right. split; [lia |].
        left. exact Hqb. }
      destruct (quitAfter sched m) eqn:Hqa.
      { exists m. split; [lia |]. split; [exact Hclear |]. right. split; [lia |].
        right. split; assumption. }
      exists (S m). split; [lia |]. split; [| left; reflexivity].
      intros i Hi. destruct (Nat.eq_dec i m) as [-> | Hne]; [split; assumption |].
      apply Hclear. lia.
    + exists k. split; [lia |]. split; [exact Hclear |]. right. split; [lia | exact Hstop].
Qed.

(** X10.  The goroutine of the split path always ends by closing the result
    channel, and where it stops is fixed by the schedule of cancellation.
    With no cancellation seen in rounds [0 .. k-1]: if the batch has [k]
    headers, all are verified and all verdicts queued; if round [k] sees the
    cancellation before verifying, headers [0 .. k-1] are verified and their
    [k] verdicts queued; if round [k] sees it only after verifying, headers
    [0 .. k] are verified and the verdicts of the first [k] queued, the last
    one dropped.  Headers are verified in batch order, each by the engine of
    its era, and every schedule falls under one of the three cases. *)
Theorem verifyWorker_any_schedule (chain : Chain) (sched : Schedule)
    (headers : list Header) (w : World) :
  let n := List.length headers in
  let ends (v s : nat) :=
    exists out w',
      verifyWorker h chain sched headers (makeChan n) w = Done out w'
      /\ chanClosed out = true
      /\ hasVerified pos poa H chain headers w v s (makeChan n) out w' in
  (forall k, (k <= n)%nat ->
     (forall i, (i < k)%nat -> quitBefore sched i = false /\ quitAfter sched i = false) ->
     (k = n -> ends n n)
     /\ ((k < n)%nat -> quitBefore sched k = true -> ends k k)
     /\ ((k < n)%nat -> quitBefore sched k = false -> quitAfter sched k = true ->
         ends (S k) k))
  /\ exists k, (k <= n)%nat
       /\ (forall i, (i < k)%nat -> quitBefore sched i = false /\ quitAfter sched i = false)
       /\ (k = n
           \/ ((k < n)%nat
               /\ (quitBefore sched k = true
                   \/ (quitBefore sched k = false /\ quitAfter sched k = true)))).
Proof.
  intros n ends. split; [| apply first_stop].
  intros k Hk Hclear.
  destruct (verifyLoop_cases chain sched headers 0%nat (makeChan n) w k) as [Ca Cb].
  { subst n. simpl. lia. }
  { exact Hk. }
  { intros i Hi. apply Hclear. exact Hi. }
  assert (Hclose : forall v s,
            (exists after w',
               verifyLoop h chain sched 0 headers (makeChan n) w = Done after w'
               /\ chanClosed after = chanClosed (makeChan n)
               /\ hasVerified pos poa H chain headers w v s (makeChan n) after w') ->
            ends v s).
  { intros v s (after & w' & E & _ & Hv). subst ends. cbv beta.
    exists (closeChan after), w'. unfold verifyWorker, bind. rewrite E.
    split; [reflexivity |]. split; [reflexivity |]. exact Hv. }
  cbn [Nat.add] in Ca, Cb. split; [| split].
  - intros ->. apply Hclose. apply Ca. left. reflexivity.
  - intros _ Hqb. apply Hclose. apply Ca. right. exact Hqb.
  - intros Hlt Hqb Hqa. apply Hclose. apply Cb; assumption.
Qed.

(** X9.  A batch whose headers all belong to one era goes whole, in one
    call, to the [VerifyHeaders] of that era's engine, and the channel pair
    that engine returns is handed back; the hybrid starts no goroutine, logs
    nothing and leaves its diagnostic fields alone. *)
Theorem VerifyHeaders_one_era (chain : Chain) (first : Header) (more : list Header)
    (e : Era) (w : World) :
  (forall header, In header (first :: more) -> eraOf h header = e) ->
  let answer := eVerifyHeaders (pick pos poa e) chain (first :: more) (env w) in
  VerifyHeaders h chain (first :: more) w
  = Done (Forwarded (fst answer))
         (mkWorld (diag w) (now w) (snd answer) (logs w)
                  (calls w ++ [mkCall e MVerifyHeaders (OnHeaders (first :: more))])).
Proof. apply VerifyHeaders_one_era_aux. Qed.

(** The split-path branch of [VerifyHeaders]. *)
Lemma VerifyHeaders_spawns (chain : Chain) (first : Header) (more : list Header) (w : World) :
  Uint64 (Number first) < H ->
  H <= Uint64 (Number (last (first :: more) first)) ->
  VerifyHeaders h chain (first :: more) w
  = Done (Own (mkOwnChans false (makeChan (List.length (first :: more)))
                          (Some (first :: more)))) w.
Proof.
  intros Hfirst Hlast. unfold VerifyHeaders. cbv beta iota zeta.
  change (transitionBlock h) with H.
  replace (Uint64 (Number (last (first :: more) first)) <? H) with false
    by (symmetry; apply Z.ltb_ge; lia).
  replace (H <=? Uint64 (Number first)) with false by (symmetry; apply Z.leb_gt; lia).
  reflexivity.
Qed.

(** X17.  On a batch in ascending order of block numbers [VerifyHeaders]
    never hands a header to the engine of the other era: either all headers
    are of one era and the batch goes whole to that era's engine, or the
    batch has headers on both sides of the transition block and goes to the
    goroutine that verifies header by header. *)
Theorem VerifyHeaders_ascending (chain : Chain) (first : Header) (more : list Header)
    (w : World) :
  ascending (first :: more) ->
  (exists e,
     (forall header, In header (first :: more) -> eraOf h header = e)
     /\ VerifyHeaders h chain (first :: more) w
        = Done (Forwarded (fst (eVerifyHeaders (pick pos poa e) chain (first :: more) (env w))))
               (mkWorld (diag w) (now w)
                        (snd (eVerifyHeaders (pick pos poa e) chain (first :: more) (env w)))
                        (logs w)
                        (calls w ++ [mkCall e MVerifyHeaders (OnHeaders (first :: more))])))
  \/ (straddles H (first :: more)
      /\ VerifyHeaders h chain (first :: more) w
         = Done (Own (mkOwnChans false (makeChan (List.length (first :: more)))
                                 (Some (first :: more)))) w).
Proof.
  intro Hasc.
  destruct (Z.lt_ge_cases (Uint64 (Number (last (first :: more) first))) H) as [Hlast | Hlast].
  - left. exists PoS.
    assert (Hera : forall header, In header (first :: more) -> eraOf h header = PoS).
    { intros header Hin. unfold eraOf. change (transitionBlock h) with H.
      pose proof (ascending_le_last (first :: more) first header Hasc Hin).
      replace (Uint64 (Number header) <? H) with true by (symmetry; apply Z.ltb_lt; lia).
      reflexivity. }
    split; [exact Hera | exact (VerifyHeaders_one_era_aux pos poa H signers chain first more PoS w Hera)].
  - destruct (Z.lt_ge_cases (Uint64 (Number first)) H) as [Hfirst | Hfirst].
    + right. split.
      * split; [exists first | exists (last (first :: more) first)];
          (split; [| lia]); [left; reflexivity | apply last_In].
      * apply VerifyHeaders_spawns; assumption.
    + left. exists PoA.
      assert (Hera : forall header, In header (first :: more) -> eraOf h header = PoA).
      { intros header Hin. unfold eraOf. change (transitionBlock h) with H.
        pose proof (ascending_first_le first more header Hasc Hin).
        replace (Uint64 (Number header) <? H) with false by (symmetry; apply Z.ltb_ge; lia).
        reflexivity. }
      split; [exact Hera | exact (VerifyHeaders_one_era_aux pos poa H signers chain first more PoA w Hera)].
Qed.

(** X16.  [Finalize], [Seal] and [SealHash] hand their arguments to the
    engine of the block's era and return its answer as it is; the
    environment changes by that one call only. *)
Theorem selected_dispatch_forwards (chain : Chain) (header : Header) (state : StateDB)
    (body : Body) (block : Block) (out : SealResults) (stop : StopChan) (w : World) :
  forwarded pos poa (Finalize h chain header state body) w
            (eraOf h header) MFinalize (OnHeader header)
            (fun e => eFinalize e chain header state body)
  /\ forwarded pos poa (Seal h chain block out stop) w
               (eraOf h (blockHeader block)) MSeal (OnBlock block)
               (fun e => eSeal e chain block out stop)
  /\ forwarded pos poa (SealHash h header) w
               (eraOf h header) MSealHash (OnHeader header) (fun e => eSealHash e header).
Proof.
  split; [| split].
  - apply Finalize_forwarded.
  - apply Seal_forwarded.
  - apply SealHash_forwarded.
Qed.

(** [Prepare] forwards the header of [handedHeader]. *)
Lemma Prepare_hands_on_aux (chain : Chain) (header : Header) (w : World) :
  forwarded pos poa (Prepare h chain header) w
            (eraOf h header) MPrepare (OnHeader (handedHeader h header))
            (fun e => ePrepare e chain (handedHeader h header))
  /\ Number (handedHeader h header) = Number header
  /\ headerRest (handedHeader h header) = headerRest header
  /\ Extra (handedHeader h header)
     = (if Uint64 (Number header) =? H then checkpointExtra signers else Extra header).
Proof.
  unfold handedHeader. change (transitionBlock h) with H.
  change (initialSigners h) with signers.
  destruct (Z.eqb_spec (Uint64 (Number header)) H) as [E | Hne].
  - split; [| repeat split].
    unfold eraOf. change (transitionBlock h) with H. rewrite E, Z.ltb_irrefl.
    exact (Prepare_forwarded_transition pos poa H signers chain header w E).
  - split; [| repeat split].
    exact (Prepare_forwarded_plain pos poa H signers chain header w Hne).
Qed.

(** X14.  [Prepare] hands the header to the [Prepare] of the engine of the
    header's era and returns what that returns; the header handed on is the
    one it was given, with the extra-data replaced by the checkpoint layout
    on the transition block and untouched on every other block. *)
Theorem Prepare_hands_on (chain : Chain) (header : Header) (w : World) :
  forwarded pos poa (Prepare h chain header) w
            (eraOf h header) MPrepare (OnHeader (handedHeader h header))
            (fun e => ePrepare e chain (handedHeader h header))
  /\ Number (handedHeader h header) = Number header
  /\ headerRest (handedHeader h header) = headerRest header
  /\ Extra (handedHeader h header)
     = (if Uint64 (Number header) =? H then checkpointExtra signers else Extra header).
Proof. apply Prepare_hands_on_aux. Qed.

(** X15.  For a parent below the largest [uint64], [CalcDifficulty] goes to
    the engine that every operation on the child block goes to: the engine of
    the era of the header numbered one more than the parent.  The parent of
    the transition block is thus handled by the PoA engine here, though its
    own verification goes to the PoS engine. *)
Theorem CalcDifficulty_follows_child (chain : Chain) (time : Z) (parent child : Header)
    (w : World) :
  Uint64 (Number parent) < maxUint64 ->
  Uint64 (Number child) = Uint64 (Number parent) + 1 ->
  forwarded pos poa (CalcDifficulty h chain time parent) w
            (eraOf h child) MCalcDifficulty (OnHeader parent)
            (fun e => eCalcDifficulty e chain time parent)
  /\ (Uint64 (Number child) = H ->
      eraOf h child = PoA /\ eraOf h parent = PoS).
Proof.
  intros Hmax Hchild.
  pose proof (Uint64_range (Number parent)) as R.
  assert (Ewrap : wrap64 (Uint64 (Number parent) + 1) = Uint64 (Number child)).
  { rewrite Hchild. unfold wrap64. apply Z.mod_small.
    unfold maxUint64 in Hmax. lia. }
  split.
  - pose proof (CalcDifficulty_forwarded pos poa H signers chain time parent w) as F.
    rewrite Ewrap in F. exact F.
  - intro EH. unfold eraOf. change (transitionBlock h) with H. split.
    + rewrite EH, Z.ltb_irrefl. reflexivity.
    + replace (Uint64 (Number parent) <? H) with true
        by (symmetry; apply Z.ltb_lt; lia).
      reflexivity.
Qed.

End Further_batches.

Section Further_environment.

Context {host : Host}.
Variables (pos poa : Engine) (H : Z) (signers : list Address).

Let h : Hybrid := hybridOf pos poa H signers.

Lemma forwarded_drop_env {A : Type} (m : Run A) (w : World) (e : Era) (meth : Method)
    (s : Subject) (f : Engine -> Env -> A * Env) :
  forwarded pos poa m w e meth s f ->
  exists w', (m ;; ret tt) w = Done tt w' /\ env w' = snd (f (pick pos poa e) (env w)).
Proof.
  intros (w' & E & He & _). exists w'. unfold bind. rewrite E. split; [reflexivity | exact He].
Qed.

(** Serving a request changes the environment by the one engine call. *)
Lemma serve_env (r : Request) (w : World) :
  exists w',
    serve h r w = Done tt w'
    /\ env w' = engineStep h (pick pos poa (if blockNumberOf r <? H then PoS else PoA))
                           r (env w).
Proof.
  destruct r as [header | chain header | chain block | chain header
                | chain header state body | chain header state body receipts
                | chain block out stop | header | chain time parent];
    cbn [serve blockNumberOf engineStep].
  - exact (forwarded_drop_env _ _ _ _ _ _ (Author_forwarded pos poa H signers header w)).
  - exact (forwarded_drop_env _ _ _ _ _ _
             (VerifyHeader_forwarded pos poa H signers chain header w)).
  - exact (forwarded_drop_env _ _ _ _ _ _
             (VerifyUncles_forwarded pos poa H signers chain block w)).
  - exact (forwarded_drop_env _ _ _ _ _ _
             (proj1 (Prepare_hands_on_aux pos poa H signers chain header w))).
  - exact (forwarded_drop_env _ _ _ _ _ _
             (Finalize_forwarded pos poa H signers chain header state body w)).
  - exact (forwarded_drop_env _ _ _ _ _ _
             (FinalizeAndAssemble_forwarded pos poa H signers chain header state body
                receipts w)).
  - exact (forwarded_drop_env _ _ _ _ _ _
             (Seal_forwarded pos poa H signers chain block out stop w)).
  - exact (forwarded_drop_env _ _ _ _ _ _ (SealHash_forwarded pos poa H signers header w)).
  - exact (forwarded_drop_env _ _ _ _ _ _
             (CalcDifficulty_forwarded pos poa H signers chain time parent w)).
Qed.

End Further_environment.

Section Further_tracking.

Import Tracking.
#[local] Existing Instance trackingHost.

Lemma pick_tracking (e : Era) : pick (trackingEngine PoS) (trackingEngine PoA) e = trackingEngine e.
Proof. destruct e; reflexivity. Qed.

Lemma engineStep_tracking (h : Hybrid) (e : Era) (r : Request) (ms : Mocks) :
  engineStep h (trackingEngine e) r ms
  = setMock e (recordCall (methodName (methodOf r)) (mockOf e ms)) ms.
Proof. destruct r; reflexivity. Qed.

Lemma mockOf_setMock (e e' : Era) (m : Mock) (ms : Mocks) :
  mockOf e (setMock e' m ms)
  = match e, e' with
    | PoS, PoS | PoA, PoA => m
    | _, _ => mockOf e ms
    end.
Proof. destruct e, e'; reflexivity. Qed.

(** One request adds one to the counter of its method in the mock of its
    era, and changes no other counter and no configured error. *)
Lemma tracked_step (H : Z) (r : Request) (w : World) :
  exists w',
    serve (trackedHybrid H) r w = Done tt w'
    /\ forall e m,
         getCallCount m (mockOf e (env w'))
         = (getCallCount m (mockOf e (env w)) + (if fallsTo H e m r then 1 else 0))%nat
         /\ forall k, getError k (mockOf e (env w')) = getError k (mockOf e (env w)).
Proof.
  destruct (serve_env (trackingEngine PoS) (trackingEngine PoA) H defaultInitialSigners r w)
    as (w' & E & He).
  exists w'. split; [exact E |]. intros e m.
  rewrite He, pick_tracking, engineStep_tracking, mockOf_setMock.
  unfold fallsTo. rewrite (String.eqb_sym (methodName (methodOf r)) m).
  destruct (blockNumberOf r <? H), e; cbn [getCallCount getError recordCall methodCalls errors];
    rewrite ?andb_false_r, ?andb_true_r; unfold getCallCount, getError;
    try (split; [lia | reflexivity]);
    (split; [destruct (String.eqb m (methodName (methodOf r))); lia | reflexivity]).
Qed.

(** X11.  Over a hybrid built on two tracking mocks, after any history of
    requests the counter of each mock for a method has grown by the number
    of requests of the history for that method whose block number is on the
    mock's side of the transition block ([CalcDifficulty] counted by the
    number after its parent's); the errors configured in the mocks are as
    before. *)
Theorem tracked_call_counts (H : Z) (history : list Request) (e : Era) (m : string)
    (w : World) :
  exists w',
    serveAll (trackedHybrid H) history w = Done tt w'
    /\ getCallCount m (mockOf e (env w'))
       = (getCallCount m (mockOf e (env w))
          + List.length (filter (fallsTo H e m) history))%nat
    /\ forall k, getError k (mockOf e (env w')) = getError k (mockOf e (env w)).
Proof.
  revert w. induction history as [| r later IH]; intro w.
  - exists w. cbn. split; [reflexivity |]. split; [lia | reflexivity].
  - destruct (tracked_step H r w) as (w1 & E1 & S1).
    destruct (IH w1) as (w2 & E2 & C2 & K2).
    destruct (S1 e m) as [C1 K1].
    exists w2. cbn [serveAll]. unfold bind. rewrite E1. split; [exact E2 |].
    split.
    + rewrite C2, C1. cbn [filter]. destruct (fallsTo H e m r); cbn [List.length]; lia.
    + intro k. rewrite K2. apply K1.
Qed.

(** X12.  An error configured with [setError] in the mock of the block's era
    comes back from the hybrid's [VerifyHeader], [Author] and [VerifyUncles]
    as it is (nil included), and the call is counted by that mock. *)
Theorem tracked_error_comes_back (H : Z) (header : Header) (block : Block) (err : error)
    (w : World) :
  let h := trackedHybrid H in
  let configured (e : Era) (method : string) :=
    withEnv w (setMock e (setError method err (mockOf e (env w))) (env w)) in
  (let e := eraOf h header in
   exists w',
     VerifyHeader h tt header (configured e "VerifyHeader") = Done err w'
     /\ getCallCount "VerifyHeader" (mockOf e (env w'))
        = S (getCallCount "VerifyHeader" (mockOf e (env w))))
  /\ (let e := eraOf h header in
      exists w',
        Author h header (configured e "Author") = Done (Fixtures.zeroAddress, err) w'
        /\ getCallCount "Author" (mockOf e (env w'))
           = S (getCallCount "Author" (mockOf e (env w))))
  /\ (let e := eraOf h (blockHeader block) in
      exists w',
        VerifyUncles h tt block (configured e "VerifyUncles") = Done err w'
        /\ getCallCount "VerifyUncles" (mockOf e (env w'))
           = S (getCallCount "VerifyUncles" (mockOf e (env w)))).
Proof.
  intros h configured. subst h configured. unfold trackedHybrid.
  split; [| split]; cbv zeta.
  - set (e := eraOf _ header).
    destruct (VerifyHeader_forwarded (trackingEngine PoS) (trackingEngine PoA) H
                defaultInitialSigners tt header
                (withEnv w (setMock e (setError "VerifyHeader" err (mockOf e (env w)))
                              (env w))))
      as (w' & E & He & _).
    exists w'. rewrite E, He. fold e. rewrite pick_tracking.
    destruct e; split; cbn; reflexivity.
  - set (e := eraOf _ header).
    destruct (Author_forwarded (trackingEngine PoS) (trackingEngine PoA) H
                defaultInitialSigners header
                (withEnv w (setMock e (setError "Author" err (mockOf e (env w)))
                              (env w))))
      as (w' & E & He & _).
    exists w'. rewrite E, He. fold e. rewrite pick_tracking.
    destruct e, err; split; cbn; reflexivity.
  - set (e := eraOf _ (blockHeader block)).
    destruct (VerifyUncles_forwarded (trackingEngine PoS) (trackingEngine PoA) H
                defaultInitialSigners tt block
                (withEnv w (setMock e (setError "VerifyUncles" err (mockOf e (env w)))
                              (env w))))
      as (w' & E & He & _).
    exists w'. rewrite E, He. fold e. rewrite pick_tracking.
    destruct e; split; cbn; reflexivity.
Qed.

End Further_tracking.

Section Further_examples.

Import Fixtures.
#[local] Existing Instance plainHost.

(** X3 at blocks 50 and 51 with the transition at block 100, the second
    selection five seconds after the first. *)
Lemma selectEngine_rate_limited_witness :
  let h := hybridOf mockEngine mockEngine 100 defaultInitialSigners in
  (transitionBlock h <=? 51) = (transitionBlock h <=? 50)
  /\ (51 = transitionBlock h -> 50 = transitionBlock h)
  /\ exists e w1,
       selectEngine h 50 laterWorld = Done e w1
       /\ (timeSub (now laterWorld + 5000000000) (lastLogTime (diag w1)) <= tenSeconds ->
           exists w2,
             selectEngine h 51 (withNow w1 (now laterWorld + 5000000000)) = Done e w2
             /\ diag w2 = diag w1
             /\ countMsg usingEngineMsg (logs w2) = countMsg usingEngineMsg (logs w1)
             /\ countMsg transitionOccurredMsg (logs w2)
                = countMsg transitionOccurredMsg (logs w1)).
Proof.
  split; [reflexivity |]. split; [discriminate |].
  apply (selectEngine_rate_limited
           (hybridOf mockEngine mockEngine 100 defaultInitialSigners) 50 51 laterWorld
           (now laterWorld + 5000000000)).
  - reflexivity.
  - discriminate.
Defined.

(** X8 for the second of the default signers, on block 100. *)
Lemma Prepare_signer_slices_witness :
  Uint64 (Number (headerAt 100)) = 100
  /\ nth_error defaultInitialSigners 1 = Some signer2
  /\ exists handed,
       forwarded mockEngine mockEngine
         (Prepare (hybridOf mockEngine mockEngine 100 defaultInitialSigners) tt
                  (headerAt 100)) freshWorld
         PoA MPrepare (OnHeader handed) (fun e => ePrepare e tt handed)
       /\ slice (Extra handed) (extraVanity + 1 * AddressLength)
                (extraVanity + 1 * AddressLength + AddressLength)
          = Some (addrBytes signer2).
Proof.
  split; [reflexivity |]. split; [reflexivity |].
  apply (Prepare_signer_slices mockEngine mockEngine 100 defaultInitialSigners tt
           (headerAt 100) freshWorld 1 signer2); reflexivity.
Defined.

(** X9 on the batch 150, 120, 101, all of the PoA era, in no order. *)
Lemma VerifyHeaders_one_era_witness :
  let h := hybridOf mockEngine mockEngine 100 defaultInitialSigners in
  let batch := [headerAt 150; headerAt 120; headerAt 101] in
  (forall header, In header batch -> eraOf h header = PoA)
  /\ VerifyHeaders h tt batch freshWorld
     = Done (Forwarded (fst (eVerifyHeaders mockEngine tt batch (env freshWorld))))
            (mkWorld (diag freshWorld) (now freshWorld)
                     (snd (eVerifyHeaders mockEngine tt batch (env freshWorld)))
                     (logs freshWorld)
                     (calls freshWorld ++ [mkCall PoA MVerifyHeaders (OnHeaders batch)])).
Proof.
  intros h batch.
  assert (Hera : forall header, In header batch -> eraOf h header = PoA).
  { intros header [<- | [<- | [<- | []]]]; reflexivity. }
  split; [exact Hera |].
  exact (VerifyHeaders_one_era mockEngine mockEngine 100 defaultInitialSigners tt
           (headerAt 150) [headerAt 120; headerAt 101] PoA freshWorld Hera).
Defined.

(** X15 for the parent 99 of the transition block 100. *)
Lemma CalcDifficulty_follows_child_witness :
  let h := hybridOf mockEngine mockEngine 100 defaultInitialSigners in
  Uint64 (Number (headerAt 99)) < maxUint64
  /\ Uint64 (Number (headerAt 100)) = Uint64 (Number (headerAt 99)) + 1
  /\ (forwarded mockEngine mockEngine (CalcDifficulty h tt 0 (headerAt 99)) freshWorld
                (eraOf h (headerAt 100)) MCalcDifficulty (OnHeader (headerAt 99))
                (fun e => eCalcDifficulty e tt 0 (headerAt 99))
      /\ (Uint64 (Number (headerAt 100)) = 100 ->
          eraOf h (headerAt 100) = PoA /\ eraOf h (headerAt 99) = PoS)).
Proof.
  intro h.
  split; [vm_compute; reflexivity |]. split; [reflexivity |].
  apply (CalcDifficulty_follows_child mockEngine mockEngine 100 defaultInitialSigners tt 0
           (headerAt 99) (headerAt 100) freshWorld).
  - vm_compute; reflexivity.
  - reflexivity.
Defined.

(** Sealing and hashing block 100 on a fresh instance: the transition is
    logged by the first of the two selections only. *)
Example transition_event_once :
  exists w',
    serveAll (hybridOf mockEngine mockEngine 100 defaultInitialSigners)
             [ReqSeal tt (mkBlock (headerAt 100) tt) tt tt; ReqSealHash (headerAt 100);
              ReqPrepare tt (headerAt 100); ReqFinalize tt (headerAt 100) tt tt]
             freshWorld = Done tt w'
    /\ countMsg transitionOccurredMsg (logs w') = 1%nat
    /\ countMsg usingEngineMsg (logs w') = 1%nat
    /\ countMsg boundaryMsg (logs w') = 3%nat.
Proof. eexists. split; [vm_compute; reflexivity |]. repeat split. Qed.

(** Preparing the transition block on a fresh instance leaves the flag
    down. *)
Example Prepare_does_not_log_transition :
  exists r w',
    Prepare (hybridOf mockEngine mockEngine 100 defaultInitialSigners) tt (headerAt 100)
            freshWorld = Done r w'
    /\ transitionLogged (diag w') = false
    /\ map level (logs w') = [LvlInfo; LvlWarn; LvlInfo; LvlDebug; LvlDebug; LvlDebug;
                              LvlInfo; LvlInfo].
Proof. eexists; eexists. split; [vm_compute; reflexivity |]. split; reflexivity. Qed.

End Further_examples.

Section Further_tracking_examples.

Import Tracking.
#[local] Existing Instance trackingHost.

(** The delegation test on [Author]: a header at 50 and one at 150 across
    block 100 leave each mock with one call. *)
Example tracked_Author_counts :
  let w := mkWorld zeroDiag 0
             (mkMocks (newTrackingMockEngine "pos") (newTrackingMockEngine "poa")) [] [] in
  exists w',
    serveAll (trackedHybrid 100)
             [ReqAuthor (mkHeader 50 [] tt); ReqAuthor (mkHeader 150 [] tt)] w = Done tt w'
    /\ getCallCount "Author" (posMock (env w')) = 1%nat
    /\ getCallCount "Author" (poaMock (env w')) = 1%nat
    /\ getCallCount "VerifyHeader" (posMock (env w')) = 0%nat.
Proof. eexists. split; [vm_compute; reflexivity |]. repeat split. Qed.

End Further_tracking_examples.

Section Further_examples_of_batches.

Import Fixtures.
#[local] Existing Instance plainHost.

(** X17 on the ascending batch 50, 99, 100, 101 across block 100. *)
Lemma VerifyHeaders_ascending_witness :
  let h := hybridOf mockEngine mockEngine 100 defaultInitialSigners in
  let batch := [headerAt 50; headerAt 99; headerAt 100; headerAt 101] in
  ascending batch
  /\ ((exists e,
         (forall header, In header batch -> eraOf h header = e)
         /\ VerifyHeaders h tt batch freshWorld
            = Done (Forwarded (fst (eVerifyHeaders (pick mockEngine mockEngine e) tt batch
                                      (env freshWorld))))
                   (mkWorld (diag freshWorld) (now freshWorld)
                            (snd (eVerifyHeaders (pick mockEngine mockEngine e) tt batch
                                    (env freshWorld)))
                            (logs freshWorld)
                            (calls freshWorld ++ [mkCall e MVerifyHeaders (OnHeaders batch)])))
      \/ (straddles 100 batch
          /\ VerifyHeaders h tt batch freshWorld
             = Done (Own (mkOwnChans false (makeChan (List.length batch)) (Some batch)))
                    freshWorld)).
Proof.
  intros h batch.
  assert (Hasc : ascending batch).
  { cbn [ascending batch]. repeat split;
      intros later Hin; cbn [In] in Hin;
      repeat (destruct Hin as [<- | Hin]; [vm_compute; discriminate |]);
      contradiction. }
  split; [exact Hasc |].
  exact (VerifyHeaders_ascending mockEngine mockEngine 100 defaultInitialSigners tt
           (headerAt 50) [headerAt 99; headerAt 100; headerAt 101] freshWorld Hasc).
Defined.

(** X10 on the batch 50, 99, 100, 101 with a cancellation seen in round 1
    after the verification: two headers verified, one verdict queued. *)
Lemma verifyWorker_any_schedule_witness :
  let h := hybridOf mockEngine mockEngine 100 defaultInitialSigners in
  let batch := [headerAt 50; headerAt 99; headerAt 100; headerAt 101] in
  let sched := mkSchedule (fun _ => false) (fun i => (i =? 1)%nat) in
  (1 <= List.length batch)%nat
  /\ (forall i, (i < 1)%nat -> quitBefore sched i = false /\ quitAfter sched i = false)
  /\ (1 < List.length batch)%nat
  /\ quitBefore sched 1 = false /\ quitAfter sched 1 = true
  /\ exists out w',
       verifyWorker h tt sched batch (makeChan (List.length batch)) freshWorld
       = Done out w'
       /\ chanClosed out = true
       /\ hasVerified mockEngine mockEngine 100 tt batch freshWorld 2 1
                      (makeChan (List.length batch)) out w'.
Proof.
  intros h batch sched.
  assert (Hclear : forall i, (i < 1)%nat ->
                     quitBefore sched i = false /\ quitAfter sched i = false).
  { intros i Hi. assert (i = 0)%nat by lia. subst i. split; reflexivity. }
  assert (Hk : (1 <= List.length batch)%nat) by (cbn; lia).
  assert (Hlt : (1 < List.length batch)%nat) by (cbn; lia).
  split; [exact Hk |]. split; [exact Hclear |]. split; [exact Hlt |].
  split; [reflexivity |]. split; [reflexivity |].
  exact (proj2 (proj2 (proj1
           (verifyWorker_any_schedule mockEngine mockEngine 100 defaultInitialSigners tt
              sched batch freshWorld) 1%nat Hk Hclear)) Hlt eq_refl eq_refl).
Defined.

End Further_examples_of_batches.
